(** * parsePolyglot: the indentation-driven YAML-subset parser

    A shallow embedding of [spec/upstream/parsePolyglot.py]: the two
    regular expressions, the [yamlValue] string subclass, [expectYAML],
    the push-back generator [parseYAML_generator] and the recursive
    [parseYAML_inner].

    Text is modelled as [string]; every character is read as an ASCII
    code point (characters above 127 are taken to be neither white space
    nor word characters nor line boundaries). *)

From Stdlib Require Import String Ascii List Arith Bool Lia DecimalString.
Import ListNotations.
Local Open Scope list_scope.
Local Open Scope string_scope.

(** ** Characters and Python string methods *)

Definition LF : ascii := "010"%char.
Definition CR : ascii := "013"%char.
Definition SP : ascii := " "%char.

(** One-character string holding a line feed. *)
Definition nl : string := String LF EmptyString.

(** [str.isspace] on one ASCII character, which is also the class [\s]
    of the [re] module on [str] patterns. *)
Definition is_space (c : ascii) : bool :=
  let n := nat_of_ascii c in
  (Nat.leb 9 n && Nat.leb n 13) || (Nat.leb 28 n && Nat.leb n 32).

(** The class [\w] on ASCII. *)
Definition is_word (c : ascii) : bool :=
  let n := nat_of_ascii c in
  (Nat.leb 48 n && Nat.leb n 57) || (Nat.leb 65 n && Nat.leb n 90)
  || (Nat.leb 97 n && Nat.leb n 122) || Nat.eqb n 95.

(** The class [[\w\.]] of the [key] group. *)
Definition is_key_char (c : ascii) : bool :=
  is_word c || Ascii.eqb c "."%char.

(** The atom [.] (no DOTALL flag): anything but a line feed. *)
Definition is_dot (c : ascii) : bool := negb (Ascii.eqb c LF).

Definition is_sp (c : ascii) : bool := Ascii.eqb c SP.

(** Line boundaries of [str.splitlines] on ASCII. *)
Definition is_linebreak (c : ascii) : bool :=
  let n := nat_of_ascii c in
  (Nat.leb 10 n && Nat.leb n 13) || (Nat.leb 28 n && Nat.leb n 30).

(** [all_chars p s]: every character of [s] is in the class [p]. *)
Fixpoint all_chars (p : ascii -> bool) (s : string) : bool :=
  match s with
  | EmptyString => true
  | String c s' => p c && all_chars p s'
  end.

(** [all_space s]: every character of [s] is white space. *)
Definition all_space (s : string) : bool := all_chars is_space s.

(** [s.lstrip()] *)
Fixpoint lstrip (s : string) : string :=
  match s with
  | EmptyString => EmptyString
  | String c s' => if is_space c then lstrip s' else s
  end.

(** [s.rstrip()] *)
Fixpoint rstrip (s : string) : string :=
  match s with
  | EmptyString => EmptyString
  | String c s' => if all_space s then EmptyString else String c (rstrip s')
  end.

(** [s.strip()] *)
Definition strip (s : string) : string := rstrip (lstrip s).

(** [' ' * n] *)
Fixpoint spaces (n : nat) : string :=
  match n with
  | O => EmptyString
  | S n' => String SP (spaces n')
  end.

(** [bool(s)] for a string: non-empty. *)
Definition nonempty (s : string) : bool :=
  match s with EmptyString => false | _ => true end.

(** [s.splitlines(True)]: the lines of [s], line endings kept. *)
Fixpoint splitlines (s : string) : list string :=
  match s with
  | EmptyString => []
  | String c s' =>
      if is_linebreak c then
        match s' with
        | String c' s'' =>
            if Ascii.eqb c CR && Ascii.eqb c' LF
            then String c (String c' EmptyString) :: splitlines s''
            else String c EmptyString :: splitlines s'
        | EmptyString => [String c EmptyString]
        end
      else
        match splitlines s' with
        | [] => [String c EmptyString]
        | l :: ls => String c l :: ls
        end
  end.

(** ['{}'.format(n)] for a non-negative integer. *)
Definition str_of_nat (n : nat) : string :=
  NilEmpty.string_of_uint (Nat.to_uint n).

(** ** A backtracking matcher for the [re] patterns of the module

    The patterns repeat one-character atoms only, so [Star] and [Plus]
    take a character class.  Alternation is ordered, repetition and the
    optional group are greedy, and a failed continuation backtracks, as
    in the [re] module. *)

Inductive regex : Type :=
| Chr (c : ascii)                     (* a literal character *)
| Cls (p : ascii -> bool)             (* one character of a class *)
| Bol                                 (* ^  (no MULTILINE flag) *)
| Eol                                 (* $  (no MULTILINE flag) *)
| Cat (r1 r2 : regex)
| Alt (r1 r2 : regex)                 (* r1|r2 *)
| Star (p : ascii -> bool)            (* p*  *)
| Plus (p : ascii -> bool)            (* p+  *)
| Opt (r : regex)                     (* (r)? *)
| Group (name : string) (r : regex).  (* (?P<name>r) *)

(** Matcher state: the offset reached, the text still to read and the
    groups that took part so far (most recent binding first). *)
Record mstate : Type := MState {
  pos : nat;
  rest : string;
  groups : list (string * string)
}.

Definition advance (st : mstate) (s' : string) : mstate :=
  MState (S (pos st)) s' (groups st).

(** [$]: at the end, or just before a final line feed. *)
Definition at_eol (s : string) : bool :=
  match s with
  | EmptyString => true
  | String c EmptyString => Ascii.eqb c LF
  | _ => false
  end.

(** Greedy [p*] followed by the continuation [k]. *)
Fixpoint star (p : ascii -> bool) (k : mstate -> option mstate)
         (s : string) (n : nat) (g : list (string * string)) : option mstate :=
  match s with
  | String c s' =>
      if p c then
        match star p k s' (S n) g with
        | Some m => Some m
        | None => k (MState n s g)
        end
      else k (MState n s g)
  | EmptyString => k (MState n s g)
  end.

Fixpoint rmatch (r : regex) (k : mstate -> option mstate) (st : mstate)
  : option mstate :=
  match r with
  | Chr c =>
      match rest st with
      | String c' s' => if Ascii.eqb c' c then k (advance st s') else None
      | EmptyString => None
      end
  | Cls p =>
      match rest st with
      | String c' s' => if p c' then k (advance st s') else None
      | EmptyString => None
      end
  | Bol => if Nat.eqb (pos st) 0 then k st else None
  | Eol => if at_eol (rest st) then k st else None
  | Cat r1 r2 => rmatch r1 (rmatch r2 k) st
  | Alt r1 r2 =>
      match rmatch r1 k st with
      | Some m => Some m
      | None => rmatch r2 k st
      end
  | Star p => star p k (rest st) (pos st) (groups st)
  | Plus p =>
      match rest st with
      | String c' s' =>
          if p c' then star p k s' (S (pos st)) (groups st) else None
      | EmptyString => None
      end
  | Opt r1 =>
      match rmatch r1 k st with
      | Some m => Some m
      | None => k st
      end
  | Group name r1 =>
      rmatch r1
        (fun st' =>
           k (MState (pos st') (rest st')
                ((name, substring 0 (pos st' - pos st) (rest st))
                   :: groups st')))
        st
  end.

(** [pattern.match(s)] *)
Definition re_match (r : regex) (s : string) : option mstate :=
  rmatch r (fun st => Some st) (MState 0 s []).

(** [m.group(name)]: [None] when the group did not take part. *)
Fixpoint assoc (name : string) (g : list (string * string)) : option string :=
  match g with
  | [] => None
  | (n, v) :: g' => if String.eqb n name then Some v else assoc name g'
  end.

Definition group (m : mstate) (name : string) : option string :=
  assoc name (groups m).

Declare Scope regex_scope.
Delimit Scope regex_scope with re.
Notation "r1 ';;' r2" := (Cat r1 r2)
  (at level 61, right associativity) : regex_scope.
Notation "r1 '|:' r2" := (Alt r1 r2)
  (at level 62, right associativity) : regex_scope.

(** [commentLineRegex = re.compile(r'^\s*#')] *)
Definition commentLineRegex : regex :=
  (Bol ;; Star is_space ;; Chr "#")%re.

(** [yamlLineRegex], compiled with [re.VERBOSE] (unescaped white space in
    the pattern is ignored, so it is spaced out here):
<<
    ^ (?P<indent> \ * )
      ( (?P<itemMarker> - \ + ) (?P<itemContent> . * ) $
      | ^ ( (?P<key> [\w\.] + ) (?P<keyExtra> : \ * ) ) ? (?P<content> . * )
      ) \s * $
>>
    The second alternative starts with an anchor [^] of its own, after
    the [indent] group. *)
Definition yamlLineRegex : regex :=
  (Bol ;; Group "indent" (Star is_sp) ;;
   ( (Group "itemMarker" (Chr "-" ;; Plus is_sp) ;;
      Group "itemContent" (Star is_dot) ;; Eol)
     |:
     (Bol ;;
      Opt (Group "key" (Plus is_key_char) ;;
           Group "keyExtra" (Chr ":" ;; Star is_sp)) ;;
      Group "content" (Star is_dot)) ) ;;
   Star is_space ;; Eol)%re.

(** ** Line classification: lines 78 to 96 of [parseYAML_inner] *)

(** [line.strip() == '' or commentLineRegex.match(line)] *)
Definition ignored (line : string) : bool :=
  negb (nonempty (strip line)) ||
  match re_match commentLineRegex line with Some _ => true | None => false end.

(** [a or b] on optional strings, with ['']  as the last resort. *)
Definition or_str (a : option string) (b : string) : string :=
  match a with
  | Some s => if nonempty s then s else b
  | None => b
  end.

Record parsedLine : Type := ParsedLine {
  lineIndent : nat;
  lineItemMarker : option string;
  lineKey : string;
  lineKeyExtra : string;
  lineContent : string
}.

Definition parse_line (line : string) : option parsedLine :=
  match re_match yamlLineRegex line with
  | None => None
  | Some m =>
      Some (ParsedLine
              (match group m "indent" with
               | Some s => String.length s
               | None => 0
               end)
              (group m "itemMarker")
              (or_str (group m "key") EmptyString)
              (or_str (group m "keyExtra") EmptyString)
              (strip (or_str (group m "content")
                        (or_str (group m "itemContent") EmptyString))))
  end.

(** [if lineItemMarker:] *)
Definition has_marker (p : parsedLine) : bool :=
  match lineItemMarker p with Some s => nonempty s | None => false end.

(** [if lineKey:] *)
Definition has_key (p : parsedLine) : bool := nonempty (lineKey p).

(** ** Values and exceptions *)

(** What [parseYAML_inner] builds: [None], a [list], a [dict] (kept in
    insertion order) or a [yamlValue], the [str] subclass that carries a
    [linenumber] attribute. *)
#[warnings="-register-all"]
Inductive node : Type :=
| PNone
| PList (items : list node)
| PDict (entries : list (string * node))
| YamlValue (value : string) (linenumber : option nat).

(** [yamlValue.__new__(cls, value, linenumber)]: the attribute is set only
    when a line number is given, else the class default [None] shows. *)
Definition yamlValue (value : string) (linenumber : option nat) : node :=
  YamlValue value linenumber.

(** [d[key] = v] on a [dict]: a known key keeps its place. *)
Fixpoint dict_set (d : list (string * node)) (key : string) (v : node)
  : list (string * node) :=
  match d with
  | [] => [(key, v)]
  | (k, w) :: d' =>
      if String.eqb k key then (k, v) :: d' else (k, w) :: dict_set d' key v
  end.

(** The classes the module tests and names. *)
Inductive pyclass : Type :=
| cls_NoneType | cls_list | cls_dict | cls_yamlValue | cls_type.

(** [c.__name__] *)
Definition class_name (c : pyclass) : string :=
  match c with
  | cls_NoneType => "NoneType"
  | cls_list => "list"
  | cls_dict => "dict"
  | cls_yamlValue => "yamlValue"
  | cls_type => "type"
  end.

(** [v.__class__] for a value. *)
Definition class_of (v : node) : pyclass :=
  match v with
  | PNone => cls_NoneType
  | PList _ => cls_list
  | PDict _ => cls_dict
  | YamlValue _ _ => cls_yamlValue
  end.

(** [c.__class__] for a class object: every class here is an instance of
    [type]. *)
Definition class_of_class (c : pyclass) : pyclass := cls_type.

Definition pyclass_eqb (a b : pyclass) : bool :=
  match a, b with
  | cls_NoneType, cls_NoneType | cls_list, cls_list | cls_dict, cls_dict
  | cls_yamlValue, cls_yamlValue | cls_type, cls_type => true
  | _, _ => false
  end.

(** [isinstance(v, c)] for [c] among [list], [dict] and [yamlValue]. *)
Definition isinstance (v : node) (c : pyclass) : bool :=
  pyclass_eqb (class_of v) c.

Inductive exn : Type :=
| Exception (message : string)
| TypeError (message : string)
| AttributeError (message : string)
| StopIteration.

(** The message [expectYAML] formats. *)
Definition bad_yaml_message (returnItem : node) (linenumber : nat)
           (line : string) (expected : pyclass) : string :=
  "Bad YAML, got a " ++ class_name (class_of_class expected)
  ++ " item while working on a " ++ class_name (class_of returnItem)
  ++ " on line " ++ str_of_nat linenumber ++ ": " ++ rstrip line.

(** [expectYAML(returnItem, linenumber, line, expected)]: [None] when the
    check passes, else the exception raised. *)
Definition expectYAML (returnItem : node) (linenumber : nat) (line : string)
           (expected : pyclass) : option exn :=
  if isinstance returnItem expected then None
  else Some (Exception (bad_yaml_message returnItem linenumber line expected)).

(** [bool(v)] *)
Definition truthy (v : node) : bool :=
  match v with
  | PNone => false
  | PList items => match items with [] => false | _ => true end
  | PDict entries => match entries with [] => false | _ => true end
  | YamlValue value _ => nonempty value
  end.

(** ** The line source: [parseYAML_generator]

    A generator object is its frame: where it stands, its locals and
    what is left of [enumerate(source)]. *)

Inductive gen_status : Type :=
| Fresh        (* created, body not entered *)
| Suspended    (* waiting at one of the three [yield]s *)
| Done.        (* body has returned *)

Record generator : Type := Generator {
  status : gen_status;
  backlines : list (nat * string);   (* [append] at the end, [pop] there *)
  linenumber_ : nat;                 (* loop variables of the [for] *)
  line_ : string;
  usedLine : bool;
  count : nat;                       (* next index of [enumerate] *)
  pending : list string              (* lines [enumerate] has not drawn *)
}.

(** What resuming a generator gives the caller. *)
Inductive gen_result : Type :=
| Yielded (v : option (nat * string))
| Raised (e : exn).

(** [l.pop()] *)
Fixpoint pop {A : Type} (l : list A) : option (list A * A) :=
  match l with
  | [] => None
  | [x] => Some ([], x)
  | x :: l' =>
      match pop l' with
      | Some (l'', y) => Some (x :: l'', y)
      | None => None
      end
  end.

Definition gen_done (g : generator) : generator :=
  Generator Done (backlines g) (linenumber_ g) (line_ g) (usedLine g)
            (count g) (pending g).

(** One test of [while usedLine is False or backlines:] and the body up
    to its [yield]; [on_exit] is what follows the loop. *)
Definition gen_while (on_exit : generator -> gen_result * generator)
           (g : generator) : gen_result * generator :=
  match pop (backlines g) with
  | Some (bl, x) =>
      (* backline = yield backlines.pop() *)
      (Yielded (Some x),
       Generator Suspended bl (linenumber_ g) (line_ g) (usedLine g)
                 (count g) (pending g))
  | None =>
      if negb (usedLine g) then
        (* usedLine = True; backline = yield (linenumber + 1, line) *)
        (Yielded (Some (linenumber_ g + 1, line_ g)),
         Generator Suspended (backlines g) (linenumber_ g) (line_ g) true
                   (count g) (pending g))
      else on_exit g
  end.

(** [for linenumber, line in enumerate(source):] from the point where it
    draws its next pair, by recursion on what is left of the source. *)
Fixpoint gen_for (lines : list string) (g : generator)
  : gen_result * generator :=
  match lines with
  | [] => (Raised StopIteration, gen_done g)
  | line :: lines' =>
      (* backline = None; usedLine = False *)
      gen_while (gen_for lines')
        (Generator (status g) (backlines g) (count g) line false
                   (S (count g)) lines')
  end.

(** [gen.send(v)]; [next(gen)] is [gen.send(None)]. *)
Definition gen_send (v : option (nat * string)) (g : generator)
  : gen_result * generator :=
  match status g with
  | Done => (Raised StopIteration, g)
  | Fresh =>
      match v with
      | Some _ =>
          (Raised (TypeError
             "can't send non-None value to a just-started generator"), g)
      | None =>
          (* backlines = [] *)
          gen_for (pending g)
            (Generator Suspended [] (linenumber_ g) (line_ g) (usedLine g)
                       (count g) (pending g))
      end
  | Suspended =>
      match v with
      | Some backline =>
          (* while backline: backlines.append(backline);
                             backline = yield None *)
          (Yielded None,
           Generator Suspended (backlines g ++ [backline])%list
                     (linenumber_ g) (line_ g) (usedLine g)
                     (count g) (pending g))
      | None => gen_while (gen_for (pending g)) g
      end
  end.

Definition gen_next (g : generator) : gen_result * generator :=
  gen_send None g.

(** The file system as [parseYAML_generator] sees it: [os.path.isfile]
    and the lines that iterating [open(path, 'r')] gives. *)
Record filesystem : Type := FileSystem {
  isfile : string -> bool;
  file_lines : string -> list string
}.

(** The argument of [parseYAML]: a [str], or anything else that iterates
    over lines (an open stream, a list of lines). *)
Inductive py_source : Type :=
| SrcStr (s : string)
| SrcLines (lines : list string).

(** The generator object on the lines of [lines]. *)
Definition gen_init (lines : list string) : generator :=
  Generator Fresh [] 0 EmptyString false 0 lines.

(** The lines [enumerate(source)] runs over once the head of
    [parseYAML_generator] has looked at [source]. *)
Definition source_lines (fs : filesystem) (source : py_source) : list string :=
  match source with
  | SrcStr s =>
      (* hasattr(source, 'capitalize') *)
      if isfile fs s
      then file_lines fs s       (* source = open(source, 'r') *)
      else splitlines s          (* source = source.splitlines(True) *)
  | SrcLines lines => lines      (* the for loop will already work *)
  end.

(** [parseYAML_generator(source)].  The file system is read when the body
    is entered, which [parseYAML_inner] does at once. *)
Definition parseYAML_generator (fs : filesystem) (source : py_source)
  : generator :=
  gen_init (source_lines fs source).

(** ** The structural parser: [parseYAML_inner] *)

(** How a call ends: with a value and the generator as the call left it,
    with an exception, or with the fuel of the model used up. *)
Inductive outcome : Type :=
| Return (v : node) (source : generator)
| Raise (e : exn)
| OutOfFuel.

(** What one pass through the body of the [for] loop decides. *)
Inductive control : Type :=
| Finish (o : outcome)
    (* [return], a raised exception, or the source ran dry *)
| Continue (source : generator) (indent : nat) (returnItem : node)
    (* [continue], or the end of the body *)
| Recurse (source : generator) (indent : nat) (store : node -> node).
    (* [parseYAML_inner(source, indent + 1)], whose value [store] puts
       into [returnItem] before [continue] *)

(** ['Unparseable YAML line {}: {}'.format(linenumber, line.rstrip())] *)
Definition unparseable_message (linenumber : nat) (line : string) : string :=
  "Unparseable YAML line " ++ str_of_nat linenumber ++ ": " ++ rstrip line.

(** [lineContent.strip() in ('|', '|-', '>')] *)
Definition is_multiline_marker (lineContent : string) : bool :=
  let s := strip lineContent in
  String.eqb s "|" || String.eqb s "|-" || String.eqb s ">".

(** [source.send(x)] as a statement: the value sent back is dropped. *)
Definition send_back (x : nat * string) (source : generator)
  : exn + generator :=
  match gen_send (Some x) source with
  | (Raised e, _) => inl e
  | (Yielded _, source') => inr source'
  end.

(** The [- array item] branch, lines 107 to 120. *)
Definition array_item (source : generator) (indent : nat) (returnItem : node)
           (linenumber : nat) (line : string) (p : parsedLine) : control :=
  let committed :=
    match returnItem with
    | PNone => inr (PList [], lineIndent p)
    | _ =>
        match expectYAML returnItem linenumber line cls_list with
        | Some e => inl e
        | None => inr (returnItem, indent)
        end
    end in
  match committed with
  | inl e => Finish (Raise e)
  | inr (returnItem', indent') =>
      let indentLevel :=
        lineIndent p
        + String.length (or_str (lineItemMarker p) EmptyString) in
      match send_back (linenumber, spaces indentLevel ++ lineContent p)
                      source with
      | inl e => Finish (Raise e)
      | inr source' =>
          match returnItem' with
          | PList items =>
              Recurse source' indent'
                      (fun child => PList (items ++ [child])%list)
          | _ => Finish (Raise (AttributeError "append"))
          end
      end
  end.

(** The [- dict item] branch, lines 123 to 137. *)
Definition dict_item (source : generator) (indent : nat) (returnItem : node)
           (linenumber : nat) (line : string) (p : parsedLine) : control :=
  let committed :=
    match returnItem with
    | PNone => inr (PDict [], lineIndent p)
    | _ =>
        match expectYAML returnItem linenumber line cls_dict with
        | Some e => inl e
        | None => inr (returnItem, indent)
        end
    end in
  match committed with
  | inl e => Finish (Raise e)
  | inr (returnItem', indent') =>
      let indentLevel :=
        lineIndent p + String.length (lineKey p)
        + String.length (lineKeyExtra p) in
      match send_back (linenumber, spaces indentLevel ++ lineContent p)
                      source with
      | inl e => Finish (Raise e)
      | inr source' =>
          match returnItem' with
          | PDict entries =>
              Recurse source' indent'
                      (fun child => PDict (dict_set entries (lineKey p) child))
          | _ => Finish (Raise (TypeError "item assignment"))
          end
      end
  end.

(** The [- data] branch, lines 140 to 152. *)
Definition data_line (source : generator) (indent : nat) (returnItem : node)
           (linenumber : nat) (line : string) (p : parsedLine) : control :=
  let append_text (returnItem : node) : control :=
    match returnItem with
    | YamlValue value ln =>
        if truthy returnItem then
          Continue source indent
                   (yamlValue (value ++ nl ++ lineContent p) ln)
        else
          Continue source indent
                   (yamlValue (lineContent p) (Some linenumber))
    | _ => Finish (Raise (TypeError "concatenation"))
    end in
  match returnItem with
  | PNone =>
      let returnItem' := yamlValue EmptyString (Some linenumber) in
      if is_multiline_marker (lineContent p)
      then Continue source indent returnItem'   (* yaml multiline marker *)
      else append_text returnItem'
  | _ =>
      match expectYAML returnItem linenumber line cls_yamlValue with
      | Some e => Finish (Raise e)
      | None => append_text returnItem
      end
  end.

(** The body of the [for] loop on the pair the source gave. *)
Definition loop_body (source : generator) (indent : nat) (returnItem : node)
           (linenumber : nat) (line : string) : control :=
  (* empty or comment line, ignore *)
  if ignored line then Continue source indent returnItem
  else
    match parse_line line with
    | None => Finish (Raise (Exception (unparseable_message linenumber line)))
    | Some p =>
        (* handle end-of-sections *)
        if Nat.ltb (lineIndent p) indent then
          match send_back (linenumber, line) source with
          | inl e => Finish (Raise e)
          | inr source' => Finish (Return returnItem source')
          end
        else if has_marker p
        then array_item source indent returnItem linenumber line p
        else if has_key p
        then dict_item source indent returnItem linenumber line p
        else data_line source indent returnItem linenumber line p
    end.

(** One turn of [for linenumber, line in source:]. *)
Definition loop_step (source : generator) (indent : nat) (returnItem : node)
  : control :=
  match gen_next source with
  | (Raised StopIteration, source') => Finish (Return returnItem source')
  | (Raised e, _) => Finish (Raise e)
  | (Yielded None, _) => Finish (Raise (TypeError "cannot unpack None"))
  | (Yielded (Some (linenumber, line)), source') =>
      loop_body source' indent returnItem linenumber line
  end.

(** The loop of [parseYAML_inner] from a given [returnItem].  [fuel]
    bounds the depth of the run, not its length: a turn of the loop
    takes one unit and hands what is left, whole, both to the nested
    call it makes and to the turn that follows it. *)
Fixpoint parseYAML_loop (fuel : nat) (source : generator) (indent : nat)
         (returnItem : node) : outcome :=
  match fuel with
  | O => OutOfFuel
  | S fuel' =>
      match loop_step source indent returnItem with
      | Finish o => o
      | Continue source' indent' returnItem' =>
          parseYAML_loop fuel' source' indent' returnItem'
      | Recurse source' indent' store =>
          match parseYAML_loop fuel' source' (indent' + 1) PNone with
          | Return child source'' =>
              parseYAML_loop fuel' source'' indent' (store child)
          | Raise e => Raise e
          | OutOfFuel => OutOfFuel
          end
      end
  end.

(** [parseYAML_inner(source, indent)] *)
Definition parseYAML_inner (fuel : nat) (source : generator) (indent : nat)
  : outcome :=
  parseYAML_loop fuel source indent PNone.

(** [parseYAML(source)] *)
Definition parseYAML (fuel : nat) (fs : filesystem) (source : py_source)
  : outcome :=
  parseYAML_inner fuel (parseYAML_generator fs source) 0.

(** A file system on which no path names a file. *)
Definition no_files : filesystem :=
  FileSystem (fun _ => false) (fun _ => []).

(** The value of an outcome, the generator left aside. *)
Definition result_of (o : outcome) : option (node + exn) :=
  match o with
  | Return v _ => Some (inl v)
  | Raise e => Some (inr e)
  | OutOfFuel => None
  end.

(** ** Vocabulary of the properties *)

(** The syntactic kind of a matched line, as the three branches of the
    loop body tell them apart. *)
Inductive line_kind : Type := Item | Key | Content.

Definition kind_of_line (p : parsedLine) : line_kind :=
  if has_marker p then Item else if has_key p then Key else Content.

(** The class a block must have to take a line of a given kind. *)
Definition class_for (k : line_kind) : pyclass :=
  match k with
  | Item => cls_list
  | Key => cls_dict
  | Content => cls_yamlValue
  end.

(** The push-back queue of a line source, oldest push first. *)
Definition queue (g : generator) : list (nat * string) :=
  match status g with
  | Suspended => backlines g
  | _ => []
  end.

(** [number_from n lines]: the lines with their line numbers, the first
    one being line [n + 1]. *)
Fixpoint number_from (n : nat) (lines : list string) : list (nat * string) :=
  match lines with
  | [] => []
  | l :: ls => (n + 1, l) :: number_from (S n) ls
  end.

(** The physical lines a line source has still to hand out, numbered. *)
Definition upcoming (g : generator) : list (nat * string) :=
  match status g with
  | Done => []
  | Fresh => number_from (count g) (pending g)
  | Suspended =>
      if usedLine g then number_from (count g) (pending g)
      else (linenumber_ g + 1, line_ g) :: number_from (count g) (pending g)
  end.

(** [n] calls of [next], with what each gave. *)
Fixpoint drain (n : nat) (g : generator) : list gen_result * generator :=
  match n with
  | O => ([], g)
  | S n' =>
      let (r, g') := gen_next g in
      let (rs, g'') := drain n' g' in
      (r :: rs, g'')
  end.

(** A tree with the line numbers of its scalars forgotten. *)
Fixpoint forget_lines (v : node) : node :=
  match v with
  | PNone => PNone
  | PList items => PList (map forget_lines items)
  | PDict entries =>
      PDict (map (fun kv => (fst kv, forget_lines (snd kv))) entries)
  | YamlValue value _ => YamlValue value None
  end.

(** Two exceptions that are the same but for the line number they
    report: the same exception, or two messages of [expectYAML] about
    blocks of the same class, or two [Unparseable] messages, in each
    case for the same line text. *)
Definition same_exn (e1 e2 : exn) : Prop :=
  e1 = e2 \/
  (exists r1 r2 n1 n2 line expected,
      class_of r1 = class_of r2 /\
      e1 = Exception (bad_yaml_message r1 n1 line expected) /\
      e2 = Exception (bad_yaml_message r2 n2 line expected)) \/
  (exists n1 n2 line,
      e1 = Exception (unparseable_message n1 line) /\
      e2 = Exception (unparseable_message n2 line)).

(** Two outcomes that agree up to line numbers. *)
Definition same_outcome (o1 o2 : outcome) : Prop :=
  match o1, o2 with
  | Return v1 _, Return v2 _ => forget_lines v1 = forget_lines v2
  | Raise e1, Raise e2 => same_exn e1 e2
  | OutOfFuel, OutOfFuel => True
  | _, _ => False
  end.

(** The text of scenario 1: a mapping with a scalar and a sequence. *)
Definition scenario1 : string :=
  "a: 1" ++ nl ++ "b:" ++ nl ++ "  - x" ++ nl ++ "  - y" ++ nl.

(** The text of scenario 4: an item, then a key at the same indent. *)
Definition scenario4 : string :=
  "x:" ++ nl ++ "  - 1" ++ nl ++ "  y: 2" ++ nl.

(** A point of a run: the fuel left, the source, the baseline and the
    [returnItem] with which a turn of the loop starts. *)
Definition config : Type := (nat * generator * nat * node)%type.

(** [reaches c c']: the run of the loop from [c] comes to start a turn
    at [c'], in the same call or in a call nested in it. *)
Inductive reaches : config -> config -> Prop :=
| reaches_here c : reaches c c
| reaches_continue fuel s i r s' i' r' c :
    loop_step s i r = Continue s' i' r' ->
    reaches (fuel, s', i', r') c ->
    reaches (S fuel, s, i, r) c
| reaches_child fuel s i r s' i' store c :
    loop_step s i r = Recurse s' i' store ->
    reaches (fuel, s', i' + 1, PNone) c ->
    reaches (S fuel, s, i, r) c
| reaches_after fuel s i r s' i' store child s'' c :
    loop_step s i r = Recurse s' i' store ->
    parseYAML_loop fuel s' (i' + 1) PNone = Return child s'' ->
    reaches (fuel, s'', i', store child) c ->
    reaches (S fuel, s, i, r) c.

(** A file system with one regular file. *)
Definition one_file (path : string) (lines : list string) : filesystem :=
  FileSystem (fun p => String.eqb p path) (fun _ => lines).

(** A block-scalar introducer on line 1, text on line 2. *)
Definition marker_then_text : list string := ["|" ++ nl; "abc" ++ nl].

(** [sep.join(parts)] *)
Fixpoint join (sep : string) (parts : list string) : string :=
  match parts with
  | [] => EmptyString
  | x :: parts' =>
      match parts' with
      | [] => x
      | _ :: _ => x ++ sep ++ join sep parts'
      end
  end.

(** The payload of [line] when a block of baseline [indent] takes it as
    a content line: not ignored, matched, not out-dented, neither an
    item nor a key. *)
Definition content_payload (indent : nat) (line : string) : option string :=
  if ignored line then None
  else
    match parse_line line with
    | None => None
    | Some p =>
        if Nat.ltb (lineIndent p) indent then None
        else
          match kind_of_line p with
          | Content => Some (lineContent p)
          | _ => None
          end
    end.

(** [content_run indent numbered payloads]: the numbered lines are
    content lines for baseline [indent], with these payloads in order. *)
Definition content_run (indent : nat) (numbered : list (nat * string))
           (payloads : list string) : Prop :=
  map (fun x => content_payload indent (snd x)) numbered = map Some payloads.

(** Each further payload of a run, with the separator before it. *)
Fixpoint more_text (payloads : list string) : string :=
  match payloads with
  | [] => EmptyString
  | p :: ps => nl ++ p ++ more_text ps
  end.


(** [with_ignored ls1 ls2]: [ls2] is [ls1] with blank or comment lines
    put in, anywhere and in any number. *)
Inductive with_ignored : list string -> list string -> Prop :=
| wi_nil : with_ignored [] []
| wi_same l ls1 ls2 :
    with_ignored ls1 ls2 -> with_ignored (l :: ls1) (l :: ls2)
| wi_more b ls1 ls2 :
    ignored b = true -> with_ignored ls1 ls2 -> with_ignored ls1 (b :: ls2).

(** Two sources that hold the same text, line numbers and ignored
    lines that the second has more of set aside. *)
Definition same_source (g1 g2 : generator) : Prop :=
  map snd (queue g1) = map snd (queue g2) /\
  with_ignored (map snd (upcoming g1)) (map snd (upcoming g2)).

(** Outcomes that agree up to line numbers, sources included. *)
Definition sim_outcome (o1 o2 : outcome) : Prop :=
  match o1, o2 with
  | Return v1 g1, Return v2 g2 =>
      forget_lines v1 = forget_lines v2 /\ same_source g1 g2
  | Raise e1, Raise e2 => same_exn e1 e2
  | _, _ => False
  end.

(** Decisions of the loop body that agree up to line numbers. *)
Definition sim_control (c1 c2 : control) : Prop :=
  match c1, c2 with
  | Finish o1, Finish o2 => sim_outcome o1 o2
  | Continue s1 i1 r1, Continue s2 i2 r2 =>
      same_source s1 s2 /\ i1 = i2 /\ forget_lines r1 = forget_lines r2
  | Recurse s1 i1 store1, Recurse s2 i2 store2 =>
      same_source s1 s2 /\ i1 = i2 /\
      forall c1 c2, forget_lines c1 = forget_lines c2 ->
                    forget_lines (store1 c1) = forget_lines (store2 c2)
  | _, _ => False
  end.

(** ** Vocabulary of the further properties *)

(** The first character of [s] that is not white space, if any. *)
Definition first_nonspace (s : string) : option ascii :=
  match lstrip s with
  | String c _ => Some c
  | EmptyString => None
  end.

(** [s] is empty or starts with a character outside the class [p]. *)
Definition stops (p : ascii -> bool) (s : string) : bool :=
  match s with
  | String c _ => negb (p c)
  | EmptyString => true
  end.

(** The end of a line as [str.splitlines] or a text file leaves it:
    nothing, or one line feed. *)
Definition is_line_end (w : string) : bool :=
  String.eqb w EmptyString || String.eqb w nl.

(** [s] holds a line feed at most as its last character, as every line
    that [str.splitlines] or a text file gives. *)
Fixpoint lf_only_last (s : string) : bool :=
  match s with
  | EmptyString => true
  | String c s' =>
      if is_dot c then lf_only_last s' else negb (nonempty s')
  end.

(** The number of characters of [s] that are not white space. *)
Fixpoint nonspace (s : string) : nat :=
  match s with
  | EmptyString => 0
  | String c s' => (if is_space c then 0 else 1) + nonspace s'
  end.

(** The texts a line source holds: its queue, then the lines to come. *)
Definition held (g : generator) : list string :=
  map snd (queue g ++ upcoming g)%list.

(** A measure of the work lines ask for: one for each line, and one for
    each of its characters that is not white space. *)
Definition lines_weight (lines : list string) : nat :=
  list_sum (map (fun l => S (nonspace l)) lines).

(** No line holds a line feed before its end. *)
Definition lines_ok (lines : list string) : bool :=
  forallb lf_only_last lines.

(** The exception of [expectYAML]. *)
Definition is_bad_yaml (e : exn) : Prop :=
  exists returnItem linenumber line expected,
    e = Exception (bad_yaml_message returnItem linenumber line expected).

(** A value built of sequences alone: [None], or a [list] of such. *)
#[warnings="-register-all"]
Inductive item_tree : node -> Prop :=
| item_tree_none : item_tree PNone
| item_tree_list items : Forall item_tree items -> item_tree (PList items).

(** The shapes [parseYAML] can return: [None], a scalar, a [list] of
    item trees, or a [dict] with distinct keys whose values are item
    trees. *)
Inductive result_shape : node -> Prop :=
| shape_none : result_shape PNone
| shape_scalar value ln : result_shape (YamlValue value ln)
| shape_list items : Forall item_tree items -> result_shape (PList items)
| shape_dict entries :
    NoDup (map fst entries) ->
    Forall (fun kv => item_tree (snd kv)) entries ->
    result_shape (PDict entries).

(** The lines a source will hand out, in the order [next] gives them:
    the queue from its top, then the lines to come. *)
Definition line_seq (g : generator) : list (nat * string) :=
  (rev (queue g) ++ upcoming g)%list.

(** A key with a colon and nothing after it, as a line. *)
Definition key_line (key : string) : string := key ++ String ":" nl.

(** A key that [yamlLineRegex] takes: one or more word characters or
    dots. *)
Definition valid_key (key : string) : bool :=
  nonempty key && all_chars is_key_char key.

(** A block takes a key that has no value: the key is bound to [None]. *)
Definition add_bare_key (r : node) (key : string) : node :=
  PDict (dict_set (match r with PDict d => d | _ => [] end) key PNone).

(** The text of scenario 3: a literal block under a key. *)
Definition scenario3 : string :=
  "k: |" ++ nl ++ "  line1" ++ nl ++ "  line2" ++ nl.

(** [same_tree v v']: the two returned values are the same tree.  For
    [None], a [list] and a [dict] that is equality; for a [yamlValue]
    it is equality of the text, as [==] has it, which [yamlValue]
    inherits from its string base class and which does not look at the
    [linenumber] attribute. *)
Definition same_tree (v v' : node) : Prop :=
  match v with
  | YamlValue value _ => exists ln', v' = YamlValue value ln'
  | _ => v' = v
  end.

(** * Properties *)

(** ** Lists and strings *)

Lemma pop_snoc {A : Type} (l : list A) (x : A) :
  pop (l ++ [x])%list = Some (l, x).
Proof.
  induction l as [|a l IH]; simpl; [reflexivity|].
  rewrite IH. destruct (l ++ [x])%list eqn:E; [|reflexivity].
  destruct l; discriminate.
Qed.

Lemma pop_none {A : Type} (l : list A) : pop l = None -> l = [].
Proof.
  destruct l as [|a l]; [reflexivity|].
  destruct (exists_last (l := a :: l)) as [l' [x E]]; [discriminate|].
  rewrite E, pop_snoc. discriminate.
Qed.

Lemma pop_some {A : Type} (l l' : list A) (x : A) :
  pop l = Some (l', x) -> l = (l' ++ [x])%list.
Proof.
  destruct l as [|a l]; [discriminate|].
  destruct (exists_last (l := a :: l)) as [l0 [y E]]; [discriminate|].
  rewrite E, pop_snoc. intros H; inversion H; reflexivity.
Qed.

(** ** The line source *)

Lemma gen_next_queue_some (g : generator) bl x :
  pop (queue g) = Some (bl, x) ->
  gen_next g =
    (Yielded (Some x),
     Generator Suspended bl (linenumber_ g) (line_ g) (usedLine g)
               (count g) (pending g)).
Proof.
  unfold queue, gen_next, gen_send.
  destruct (status g); try discriminate.
  intros H. unfold gen_while. rewrite H. reflexivity.
Qed.

Lemma gen_for_spec (lines : list string) (g : generator) :
  backlines g = [] ->
  gen_for lines g =
    match lines with
    | [] => (Raised StopIteration, gen_done g)
    | l :: ls =>
        (Yielded (Some (count g + 1, l)),
         Generator Suspended [] (count g) l true (S (count g)) ls)
    end.
Proof.
  intros Hb. destruct lines as [|l ls]; [reflexivity|].
  simpl. unfold gen_while. simpl. rewrite Hb. reflexivity.
Qed.

Lemma gen_next_queue_none (g : generator) :
  queue g = [] ->
  fst (gen_next g) =
    match upcoming g with
    | x :: _ => Yielded (Some x)
    | [] => Raised StopIteration
    end /\
  queue (snd (gen_next g)) = [] /\
  upcoming (snd (gen_next g)) = tl (upcoming g).
Proof.
  unfold queue, upcoming, gen_next, gen_send.
  destruct g as [st bl ln l used c pend]; simpl.
  destruct st; simpl.
  - intros _. rewrite gen_for_spec by reflexivity.
    destruct pend; simpl; auto.
  - intros ->. unfold gen_while; simpl.
    destruct used; simpl.
    + rewrite gen_for_spec by reflexivity. destruct pend; simpl; auto.
    + auto.
  - auto.
Qed.

Lemma drain_queue (bl : list (nat * string)) :
  forall ln l used c pend,
    map Yielded (map Some (rev bl)) =
    fst (drain (length bl) (Generator Suspended bl ln l used c pend)) /\
    snd (drain (length bl) (Generator Suspended bl ln l used c pend)) =
    Generator Suspended [] ln l used c pend.
Proof.
  induction bl as [|x bl IH] using rev_ind; intros; [simpl; auto|].
  rewrite rev_app_distr, length_app, Nat.add_comm. simpl.
  rewrite (gen_next_queue_some _ bl x) by (apply pop_snoc). simpl.
  specialize (IH ln l used c pend).
  destruct (drain (length bl) _) as [rs g'']; simpl in *.
  destruct IH as [-> ->]. auto.
Qed.

Lemma gen_send_queue (g : generator) (x : nat * string) :
  queue (snd (gen_send (Some x) g)) =
    match status g with
    | Suspended => (queue g ++ [x])%list
    | _ => []
    end.
Proof.
  unfold gen_send, queue. destruct g as [st b ln l used c pend]; simpl.
  destruct st; reflexivity.
Qed.

(** C8.  The line source is a stack in front of the input.  With a line
    queued, [next] hands out the most recently pushed one and leaves the
    rest of the queue and the input untouched; a push goes on top of the
    queue; draining the queue gives the pushed lines in reverse order of
    insertion; with the queue empty, [next] hands out the next physical
    line with its number, and it signals the end exactly when queue and
    input are both exhausted. *)
Theorem line_source_next (g : generator) :
  (fst (gen_next g) =
     match pop (queue g), upcoming g with
     | Some (_, x), _ => Yielded (Some x)
     | None, x :: _ => Yielded (Some x)
     | None, [] => Raised StopIteration
     end) /\
  (queue (snd (gen_next g)) =
     match pop (queue g) with Some (bl, _) => bl | None => [] end) /\
  (upcoming (snd (gen_next g)) =
     match pop (queue g) with
     | Some _ => upcoming g
     | None => tl (upcoming g)
     end) /\
  (forall x, queue (snd (gen_send (Some x) g)) =
     match status g with
     | Suspended => (queue g ++ [x])%list
     | _ => []
     end) /\
  (fst (gen_next g) = Raised StopIteration <->
     queue g = [] /\ upcoming g = []) /\
  (fst (drain (length (queue g)) g) =
     map Yielded (map Some (rev (queue g)))).
Proof.
  assert (Hdrain : fst (drain (length (queue g)) g) =
                   map Yielded (map Some (rev (queue g)))).
  { unfold queue. destruct g as [st b ln l used c pend]; simpl.
    destruct st; try reflexivity. symmetry. apply drain_queue. }
  destruct (pop (queue g)) as [[bl x]|] eqn:Hp.
  - pose proof (gen_next_queue_some g bl x Hp) as Hn.
    assert (Hst : status g = Suspended).
    { unfold queue in Hp. destruct (status g); try discriminate; reflexivity. }
    rewrite Hn. simpl.
    split; [reflexivity|]. split; [reflexivity|].
    split; [unfold upcoming; simpl; rewrite Hst; reflexivity|].
    split; [intros y; apply gen_send_queue|].
    split; [|exact Hdrain].
    split; [discriminate|].
    intros [Hq _]. rewrite Hq in Hp. discriminate.
  - apply pop_none in Hp.
    destruct (gen_next_queue_none g Hp) as (H1 & H2 & H3).
    split; [exact H1|]. split; [exact H2|]. split; [exact H3|].
    split; [intros y; apply gen_send_queue|].
    split; [|exact Hdrain].
    rewrite H1. split.
    + intros H. split; [exact Hp|].
      destruct (upcoming g); [reflexivity|discriminate].
    + intros [_ ->]. reflexivity.
Qed.

(** ** Strings *)

Lemma append_nil_r (s : string) : s ++ EmptyString = s.
Proof. induction s as [|c s IH]; simpl; [reflexivity | now rewrite IH]. Qed.

Lemma append_assoc (a b c : string) : (a ++ b) ++ c = a ++ (b ++ c).
Proof. induction a as [|x a IH]; simpl; [reflexivity | now rewrite IH]. Qed.

Lemma substring_prefix (a b : string) :
  substring 0 (String.length a) (a ++ b) = a.
Proof.
  induction a as [|x a IH]; simpl.
  - destruct b; reflexivity.
  - now rewrite IH.
Qed.

Lemma substring_prefix_len (a b : string) (n : nat) :
  n = String.length a -> substring 0 n (a ++ b) = a.
Proof. intros ->. apply substring_prefix. Qed.

Lemma all_chars_app (p : ascii -> bool) (a b : string) :
  all_chars p (a ++ b) = all_chars p a && all_chars p b.
Proof.
  induction a as [|x a IH]; simpl; [reflexivity|].
  rewrite IH. now rewrite andb_assoc.
Qed.

Lemma lstrip_all_space (s : string) : all_space s = true -> lstrip s = EmptyString.
Proof.
  unfold all_space.
  induction s as [|c s IH]; simpl; [reflexivity|].
  intros H. apply andb_prop in H. destruct H as [Hc Hs].
  rewrite Hc. auto.
Qed.

Lemma all_space_lstrip (s : string) : all_space (lstrip s) = all_space s.
Proof.
  unfold all_space.
  induction s as [|c s IH]; simpl; [reflexivity|].
  destruct (is_space c) eqn:Hc; simpl; [exact IH | now rewrite Hc].
Qed.

Lemma rstrip_nonempty (s : string) : nonempty (rstrip s) = negb (all_space s).
Proof.
  destruct s as [|c s]; [reflexivity|].
  simpl. destruct (all_space (String c s)); reflexivity.
Qed.

(** [s.strip()] is empty exactly when [s] is all white space. *)
Lemma strip_nonempty (s : string) : nonempty (strip s) = negb (all_space s).
Proof. unfold strip. now rewrite rstrip_nonempty, all_space_lstrip. Qed.

(** ** The matcher on [yamlLineRegex] *)

Lemma star_inv (p : ascii -> bool) (k : mstate -> option mstate) (s : string) :
  forall n g m,
    star p k s n g = Some m ->
    exists pre s',
      s = pre ++ s' /\ all_chars p pre = true /\
      k (MState (n + String.length pre) s' g) = Some m.
Proof.
  induction s as [|c s IH]; intros n g m H; simpl in H.
  - exists EmptyString, EmptyString. rewrite Nat.add_0_r. auto.
  - destruct (p c) eqn:Hc.
    + destruct (star p k s (S n) g) as [m'|] eqn:Hs.
      * inversion H; subst m'. apply IH in Hs.
        destruct Hs as (pre & s' & -> & Hall & Hk).
        exists (String c pre), s'. simpl. rewrite Hc, Hall.
        rewrite Nat.add_succ_r. auto.
      * exists EmptyString, (String c s). rewrite Nat.add_0_r. auto.
    + exists EmptyString, (String c s). rewrite Nat.add_0_r. auto.
Qed.

Lemma at_eol_all_space (s : string) : at_eol s = true -> all_space s = true.
Proof.
  destruct s as [|c [|c' s]]; simpl; try discriminate; [reflexivity|].
  intros H. apply Ascii.eqb_eq in H. subst c. reflexivity.
Qed.

(** The three ways [yamlLineRegex] matches, with the groups each one
    binds: an item line, a key line, and the catch-all.  The last two
    only match from offset 0, so their [indent] group is empty. *)
Lemma yamlLineRegex_inv (line : string) (m : mstate) :
  re_match yamlLineRegex line = Some m ->
  (exists ind mk c,
      groups m = [("itemContent", c); ("itemMarker", mk); ("indent", ind)]
      /\ nonempty mk = true /\ all_chars is_sp ind = true)
  \/ (exists k ke c tl,
      groups m = [("content", c); ("keyExtra", ke); ("key", k);
                  ("indent", EmptyString)]
      /\ nonempty k = true /\ all_chars is_key_char k = true
      /\ line = k ++ tl)
  \/ (exists c w,
      groups m = [("content", c); ("indent", EmptyString)]
      /\ line = c ++ w /\ all_chars is_dot c = true /\ all_space w = true).
Proof.
  unfold re_match, yamlLineRegex. cbn [rmatch pos rest groups Nat.eqb].
  intros H. apply star_inv in H.
  destruct H as (ind & s1 & -> & Hind & H).
  cbn [pos rest groups] in H.
  rewrite Nat.add_0_l, Nat.sub_0_r, substring_prefix in H.
  match type of H with
  | match ?a with Some _ => _ | None => _ end = _ => destruct a as [m1|] eqn:HA
  end.
  - (* the item alternative *)
    inversion H; subst m1; clear H. left.
    destruct s1 as [|c1 s1]; [discriminate|].
    destruct (Ascii.eqb c1 "-") eqn:Hc1; [|discriminate].
    cbn [advance pos rest groups] in HA.
    destruct s1 as [|c2 s2]; [discriminate|].
    destruct (is_sp c2) eqn:Hc2; [|discriminate].
    apply star_inv in HA. destruct HA as (sp & s3 & -> & Hsp & HA).
    cbn [pos rest groups] in HA.
    apply star_inv in HA. destruct HA as (c & s4 & -> & Hc & HA).
    cbn [pos rest groups] in HA.
    destruct (at_eol s4); [|discriminate].
    apply star_inv in HA. destruct HA as (w & s5 & -> & Hw & HA).
    cbn [pos rest groups] in HA.
    rewrite (substring_prefix_len c (w ++ s5)) in HA by lia.
    rewrite (substring_prefix_len (String c1 (String c2 sp)) (c ++ w ++ s5))
      in HA by (cbn [String.length]; lia).
    destruct (at_eol s5); [|discriminate].
    injection HA as <-. cbn [groups].
    eexists _, _, _. split; [reflexivity|]. split; [reflexivity|exact Hind].
  - (* the alternative that starts with its own anchor *)
    clear HA. right.
    destruct (Nat.eqb (String.length ind) 0) eqn:Hz; [|discriminate].
    apply Nat.eqb_eq in Hz. destruct ind; [|discriminate]. clear Hz Hind.
    cbn [append String.length] in *.
    match type of H with
    | match ?a with Some _ => _ | None => _ end = _ =>
        destruct a as [m1|] eqn:HK
    end.
    + (* with a key *)
      inversion H; subst m1; clear H. left.
      destruct s1 as [|c1 s1]; [discriminate|].
      destruct (is_key_char c1) eqn:Hc1; [|discriminate].
      apply star_inv in HK. destruct HK as (k & s2 & -> & Hk & HK).
      cbn [pos rest groups] in HK.
      destruct s2 as [|c2 s2]; [discriminate|].
      destruct (Ascii.eqb c2 ":") eqn:Hc2; [|discriminate].
      cbn [advance pos rest groups] in HK.
      apply star_inv in HK. destruct HK as (ke & s3 & -> & Hke & HK).
      cbn [pos rest groups] in HK.
      apply star_inv in HK. destruct HK as (c & s4 & -> & Hc & HK).
      cbn [pos rest groups] in HK.
      apply star_inv in HK. destruct HK as (w & s5 & -> & Hw & HK).
      cbn [pos rest groups] in HK.
      rewrite (substring_prefix_len c (w ++ s5)) in HK by lia.
      rewrite (substring_prefix_len (String c2 ke) (c ++ w ++ s5))
        in HK by (cbn [String.length]; lia).
      rewrite (substring_prefix_len (String c1 k)
                 (String c2 (ke ++ c ++ w ++ s5))) in HK by (cbn [String.length]; lia).
      destruct (at_eol s5); [|discriminate].
      injection HK as <-. cbn [groups].
      exists (String c1 k), (String c2 ke), c, (String c2 (ke ++ c ++ w ++ s5)).
      split; [reflexivity|]. split; [reflexivity|].
      split; [cbn [all_chars]; now rewrite Hc1, Hk | reflexivity].
    + (* the whole line is content *)
      clear HK. right.
      apply star_inv in H. destruct H as (c & s2 & -> & Hc & H).
      cbn [pos rest groups] in H.
      apply star_inv in H. destruct H as (w & s3 & -> & Hw & H).
      cbn [pos rest groups] in H.
      rewrite (substring_prefix_len c (w ++ s3)) in H by lia.
      destruct (at_eol s3) eqn:He; [|discriminate].
      injection H as <-. cbn [groups].
      exists c, (w ++ s3).
      split; [reflexivity|]. split; [reflexivity|]. split; [exact Hc|].
      unfold all_space. rewrite all_chars_app.
      apply at_eol_all_space in He. unfold all_space in He.
      now rewrite Hw, He.
Qed.

Lemma strip_or_str_empty (c : string) :
  strip (or_str (Some c) EmptyString) = strip c.
Proof. destruct c; reflexivity. Qed.

(** What [parse_line] can give: an item line; or, with no leading spaces
    counted, a key line or a content line whose payload is the whole
    line stripped. *)
Lemma parse_line_cases (line : string) (p : parsedLine) :
  parse_line line = Some p ->
  kind_of_line p = Item
  \/ (kind_of_line p = Key /\ lineIndent p = 0 /\
      all_chars is_key_char (lineKey p) = true /\
      exists tl, line = lineKey p ++ tl)
  \/ (kind_of_line p = Content /\ lineIndent p = 0 /\
      exists c w, line = c ++ w /\ all_space w = true /\
                  lineContent p = strip c).
Proof.
  unfold parse_line.
  destruct (re_match yamlLineRegex line) as [m|] eqn:Hm; [|discriminate].
  intros H. injection H as <-.
  unfold kind_of_line, has_marker, has_key, group.
  destruct (yamlLineRegex_inv line m Hm)
    as [(ind & mk & c & -> & Hmk & _)
       |[(k & ke & c & tl & -> & Hk & Hkc & ->)
        |(c & w & -> & -> & _ & Hw)]];
    cbn [assoc String.eqb Ascii.eqb Bool.eqb lineItemMarker lineKey lineIndent
         lineContent or_str].
  - left. now rewrite Hmk.
  - right; left. destruct k; [discriminate|].
    cbn [nonempty]. repeat split; auto. now exists tl.
  - right; right. cbn. repeat split.
    exists c, w. repeat split; auto.
    destruct c; reflexivity.
Qed.

(** A matched line that carries no item marker has [lineIndent] 0. *)
Lemma no_marker_no_indent (line : string) (p : parsedLine) :
  parse_line line = Some p -> has_marker p = false -> lineIndent p = 0.
Proof.
  intros Hp Hm. unfold kind_of_line in *.
  destruct (parse_line_cases line p Hp) as [H|[[_ [H _]]|[_ [H _]]]]; auto.
  unfold kind_of_line in H. rewrite Hm in H. destruct (has_key p); discriminate.
Qed.

(** The payload of a content line that is not ignored is not empty. *)
Lemma content_payload_nonempty (line : string) (p : parsedLine) :
  ignored line = false -> parse_line line = Some p ->
  kind_of_line p = Content -> nonempty (lineContent p) = true.
Proof.
  intros Hi Hp Hk.
  destruct (parse_line_cases line p Hp)
    as [H|[[H _]|(_ & _ & c & w & -> & Hw & ->)]]; try congruence.
  unfold ignored in Hi. apply orb_false_elim in Hi. destruct Hi as [Hi _].
  rewrite strip_nonempty in *. unfold all_space in *.
  rewrite all_chars_app, Hw, andb_true_r in Hi.
  rewrite negb_involutive in Hi. now rewrite Hi.
Qed.

(** ** Fuel *)

(** A call that ended keeps its outcome when given more fuel. *)
Lemma parseYAML_loop_mono (fuel : nat) :
  forall source indent returnItem o,
    parseYAML_loop fuel source indent returnItem = o ->
    o <> OutOfFuel ->
    forall fuel', fuel <= fuel' ->
    parseYAML_loop fuel' source indent returnItem = o.
Proof.
  induction fuel as [|fuel IH]; intros source indent returnItem o H Ho fuel' Hle.
  - simpl in H. congruence.
  - destruct fuel' as [|fuel']; [lia|]. apply le_S_n in Hle.
    simpl in *.
    destruct (loop_step source indent returnItem) as [o'|s i r|s i store].
    + exact H.
    + eapply IH; eauto.
    + destruct (parseYAML_loop fuel s (i + 1) PNone) as [child s'| e |] eqn:Hc.
      * rewrite (IH _ _ _ _ Hc) by (auto; discriminate).
        eapply IH; eauto.
      * rewrite (IH _ _ _ _ Hc) by (auto; discriminate). exact H.
      * congruence.
Qed.

Lemma parseYAML_mono (fuel : nat) fs source o :
  parseYAML fuel fs source = o -> o <> OutOfFuel ->
  forall fuel', fuel <= fuel' -> parseYAML fuel' fs source = o.
Proof. unfold parseYAML, parseYAML_inner. apply parseYAML_loop_mono. Qed.

(** ** Scenario 1 and the classification of indented lines *)

(** C1.  On the text of scenario 1 the call does not return the mapping:
    the [1] pushed back for key [a] is classified with indent 0, the
    nested call hands it back, and the outer block, a [dict] by then,
    rejects it as a content line. *)
Theorem scenario1_raises (fuel : nat) :
  parseYAML (2 + fuel) no_files (SrcStr scenario1) =
  Raise (Exception
    "Bad YAML, got a type item while working on a dict on line 1:    1").
Proof.
  apply parseYAML_mono with (fuel := 2); [|discriminate|lia].
  vm_compute. reflexivity.
Qed.

(** C2.  A line that [yamlLineRegex] matches without an item marker gets
    [lineIndent] 0 whatever its leading spaces, and a line whose leading
    spaces are followed by a key and a colon is not a key line: a line
    that starts with a space and has no item marker is a content line. *)
Theorem indent_lost_without_marker (line : string) (p : parsedLine) :
  parse_line line = Some p ->
  has_marker p = false ->
  lineIndent p = 0 /\
  (forall c tl, line = String SP (String c tl) -> kind_of_line p = Content).
Proof.
  intros Hp Hm. split; [eapply no_marker_no_indent; eauto|].
  intros c tl ->.
  destruct (parse_line_cases _ p Hp)
    as [H|[(_ & _ & Hkc & tl' & E)|[H _]]]; auto.
  - unfold kind_of_line in H. rewrite Hm in H.
    destruct (has_key p); discriminate.
  - unfold kind_of_line. rewrite Hm.
    destruct (has_key p) eqn:Hk; [exfalso|reflexivity].
    unfold has_key in Hk.
    destruct (lineKey p) as [|k0 k]; [discriminate|].
    cbn [append all_chars] in *. injection E as <- _.
    discriminate.
Qed.

(** The line ["  y: 2"] of scenario 4, two spaces deep. *)
Lemma indent_lost_without_marker_witness :
  parse_line ("  y: 2" ++ nl) = Some (ParsedLine 0 None EmptyString EmptyString "y: 2") /\
  lineIndent (ParsedLine 0 None EmptyString EmptyString "y: 2") = 0 /\
  kind_of_line (ParsedLine 0 None EmptyString EmptyString "y: 2") = Content.
Proof.
  split; [vm_compute; reflexivity|].
  split.
  - apply (indent_lost_without_marker ("  y: 2" ++ nl));
      vm_compute; reflexivity.
  - apply (indent_lost_without_marker ("  y: 2" ++ nl) _
             ltac:(vm_compute; reflexivity) ltac:(vm_compute; reflexivity))
      with (c := " "%char) (tl := "y: 2" ++ nl).
    reflexivity.
Defined.

(** ** Kind commitment and the error raised *)

Lemma isinstance_class (v : node) (c : pyclass) :
  isinstance v c = false <-> class_of v <> c.
Proof.
  unfold isinstance. split.
  - intros H E. rewrite E in H. destruct c; discriminate.
  - intros H. destruct (class_of v), c; try reflexivity; congruence.
Qed.

(** Whatever class [expectYAML] is told to expect, its message names
    [type] in its place. *)
Lemma bad_yaml_message_type (returnItem : node) (linenumber : nat)
      (line : string) (expected : pyclass) :
  bad_yaml_message returnItem linenumber line expected =
  "Bad YAML, got a type item while working on a "
  ++ class_name (class_of returnItem)
  ++ " on line " ++ str_of_nat linenumber ++ ": " ++ rstrip line.
Proof. destruct expected; reflexivity. Qed.

(** An exception raised at a point the run reaches is the outcome of the
    run: nothing catches it. *)
Lemma raise_propagates (c c' : config) (e : exn) :
  reaches c c' ->
  (let '(fuel', s', i', r') := c' in parseYAML_loop fuel' s' i' r' = Raise e) ->
  let '(fuel, s, i, r) := c in parseYAML_loop fuel s i r = Raise e.
Proof.
  induction 1 as [c| fuel s i r s' i' r' c Hs _ IH
                 | fuel s i r s' i' store c Hs _ IH
                 | fuel s i r s' i' store child s'' c Hs Hc _ IH]; intros He.
  - destruct c as [[[fuel s] i] r]. exact He.
  - specialize (IH He). simpl. rewrite Hs. exact IH.
  - specialize (IH He). simpl. rewrite Hs. simpl in IH. rewrite IH. reflexivity.
  - specialize (IH He). simpl. rewrite Hs, Hc. exact IH.
Qed.

(** A line whose kind is not that of the block raises at once. *)
Lemma loop_body_mismatch (source : generator) (indent : nat) (returnItem : node)
      (linenumber : nat) (line : string) (p : parsedLine) :
  ignored line = false -> parse_line line = Some p ->
  indent <= lineIndent p ->
  returnItem <> PNone ->
  class_of returnItem <> class_for (kind_of_line p) ->
  loop_body source indent returnItem linenumber line =
  Finish (Raise (Exception
    (bad_yaml_message returnItem linenumber line (class_for (kind_of_line p))))).
Proof.
  intros Hi Hp Hle Hr Hc. unfold loop_body. rewrite Hi, Hp.
  apply Nat.ltb_ge in Hle. rewrite Hle.
  apply isinstance_class in Hc.
  unfold kind_of_line in *.
  destruct (has_marker p); [|destruct (has_key p)]; cbn [class_for] in *.
  - unfold array_item, expectYAML. rewrite Hc.
    destruct returnItem; try reflexivity; congruence.
  - unfold dict_item, expectYAML. rewrite Hc.
    destruct returnItem; try reflexivity; congruence.
  - unfold data_line, expectYAML. rewrite Hc.
    destruct returnItem; try reflexivity; congruence.
Qed.

(** C9.  When a run raises the [Bad YAML] exception, because a block
    that is a [list], a [dict] or a [yamlValue] draws a line of another
    kind, the message holds the class of the block, the line number and
    the text of the line stripped on the right; where the class for the
    kind of the line was meant it holds the word [type], whatever that
    kind is. *)
Theorem mismatch_names_type (c : config) (fuel : nat) (source : generator)
        (indent : nat) (returnItem : node) (linenumber : nat) (line : string)
        (source' : generator) (p : parsedLine) :
  reaches c (S fuel, source, indent, returnItem) ->
  gen_next source = (Yielded (Some (linenumber, line)), source') ->
  ignored line = false -> parse_line line = Some p ->
  indent <= lineIndent p ->
  returnItem <> PNone ->
  class_of returnItem <> class_for (kind_of_line p) ->
  let '(fuel0, source0, indent0, returnItem0) := c in
  parseYAML_loop fuel0 source0 indent0 returnItem0 =
  Raise (Exception
    ("Bad YAML, got a type item while working on a "
     ++ class_name (class_of returnItem)
     ++ " on line " ++ str_of_nat linenumber ++ ": " ++ rstrip line)).
Proof.
  intros Hreach Hnext Hi Hp Hle Hr Hc.
  rewrite <- (bad_yaml_message_type _ _ _ (class_for (kind_of_line p))).
  apply (raise_propagates c _ _ Hreach).
  simpl. unfold loop_step. rewrite Hnext.
  rewrite (loop_body_mismatch _ _ _ _ _ p); auto.
Qed.

(** An item with no payload, then a key: the key line comes back from
    the nested call to a block that is a [list]. *)
Lemma mismatch_names_type_witness :
  parseYAML_loop 3 (gen_init ["- " ++ nl; "a:" ++ nl]) 0 PNone =
  Raise (Exception
    "Bad YAML, got a type item while working on a list on line 2: a:").
Proof.
  refine (mismatch_names_type
            (3, gen_init ["- " ++ nl; "a:" ++ nl], 0, PNone)
            1 _ 0 (PList [PNone]) 2 ("a:" ++ nl) _
            (ParsedLine 0 None "a" ":" EmptyString) _ _ _ _ _ _ _).
  - eapply reaches_after.
    + vm_compute. reflexivity.
    + vm_compute. reflexivity.
    + apply reaches_here.
  - vm_compute. reflexivity.
  - vm_compute. reflexivity.
  - vm_compute. reflexivity.
  - simpl. lia.
  - discriminate.
  - discriminate.
Defined.

(** ** Scalars and their line number *)

(** C5, as stated, fails: the introducer on line 1 commits the node with
    [linenumber] 1, and the next turn of the loop replaces it by a node
    with [linenumber] 2. *)
Lemma linenumber_changes_after_marker :
  exists g1 g2,
    loop_step (gen_init marker_then_text) 0 PNone =
      Continue g1 0 (YamlValue EmptyString (Some 1)) /\
    loop_step g1 0 (YamlValue EmptyString (Some 1)) =
      Continue g2 0 (YamlValue "abc" (Some 2)).
Proof.
  eexists. eexists. split; vm_compute; reflexivity.
Qed.

Lemma nonempty_app_l (a b : string) :
  nonempty a = true -> nonempty (a ++ b) = true.
Proof. destruct a; [discriminate|reflexivity]. Qed.

(** One turn of the loop on a scalar that holds text: it goes on with
    the same line number and more text, or ends the call with the
    scalar, or raises. *)
Lemma loop_step_scalar (source : generator) (indent : nat) (value : string)
      (ln : option nat) :
  nonempty value = true ->
  match loop_step source indent (YamlValue value ln) with
  | Continue _ indent' (YamlValue value' ln') =>
      indent' = indent /\ ln' = ln /\ nonempty value' = true
  | Continue _ _ _ => False
  | Finish (Return v _) => v = YamlValue value ln
  | Finish _ => True
  | Recurse _ _ _ => False
  end.
Proof.
  intros Hv. unfold loop_step.
  destruct (gen_next source) as [[[[n l]|]|e] g']; [| exact I |destruct e; auto].
  unfold loop_body.
  destruct (ignored l); [auto|].
  destruct (parse_line l) as [p|]; [|exact I].
  destruct (Nat.ltb (lineIndent p) indent).
  { destruct (send_back (n, l) g'); auto. }
  destruct (has_marker p); [exact I|].
  destruct (has_key p); [exact I|].
  unfold data_line, expectYAML. cbn [isinstance class_of pyclass_eqb truthy].
  rewrite Hv. cbn [yamlValue]. repeat split.
  now apply nonempty_app_l.
Qed.

(** C5, amended.  Once a scalar holds text, its line number stays to the
    end of the call.  A scalar committed by an introducer line holds no
    text yet: the first content line after it sets the text and the line
    number, to its own. *)
Theorem scalar_linenumber_stable :
  (forall fuel source indent value ln v source',
      nonempty value = true ->
      parseYAML_loop fuel source indent (YamlValue value (Some ln)) =
        Return v source' ->
      exists value', v = YamlValue value' (Some ln))
  /\ (forall source indent ln linenumber line p,
        ignored line = false -> parse_line line = Some p ->
        indent <= lineIndent p -> kind_of_line p = Content ->
        loop_body source indent (YamlValue EmptyString (Some ln))
                  linenumber line =
        Continue source indent (YamlValue (lineContent p) (Some linenumber))).
Proof.
  split.
  - induction fuel as [|fuel IH]; intros source indent value ln v source' Hv H;
      [discriminate|].
    simpl in H.
    pose proof (loop_step_scalar source indent value (Some ln) Hv) as Hs.
    destruct (loop_step source indent (YamlValue value (Some ln)))
      as [o|s i r|s i store]; [| |contradiction].
    + subst o. subst v. eauto.
    + destruct r as [| | |value' ln']; try contradiction.
      destruct Hs as (-> & -> & Hv'). eapply IH; eauto.
  - intros source indent ln linenumber line p Hi Hp Hle Hk.
    unfold loop_body. rewrite Hi, Hp.
    apply Nat.ltb_ge in Hle. rewrite Hle.
    unfold kind_of_line in Hk.
    destruct (has_marker p); [discriminate|].
    destruct (has_key p); [discriminate|].
    reflexivity.
Qed.

(** Two lines of text, and the line after an introducer. *)
Lemma scalar_linenumber_stable_witness :
  (exists value',
      YamlValue ("abc" ++ nl ++ "def") (Some 7) = YamlValue value' (Some 7))
  /\ loop_body (gen_init []) 0 (YamlValue EmptyString (Some 1)) 2 ("abc" ++ nl) =
     Continue (gen_init []) 0 (YamlValue "abc" (Some 2)).
Proof.
  split.
  - apply (proj1 scalar_linenumber_stable 2
             (Generator Suspended [] 7 ("abc" ++ nl) true 8 ["def" ++ nl])
             0 "abc" 7 _ (Generator Done [] 8 ("def" ++ nl) true 9 [])).
    + reflexivity.
    + vm_compute. reflexivity.
  - apply (proj2 scalar_linenumber_stable (gen_init []) 0 1 2 ("abc" ++ nl)
             (ParsedLine 0 None EmptyString EmptyString "abc")).
    + vm_compute. reflexivity.
    + vm_compute. reflexivity.
    + simpl. lia.
    + reflexivity.
Defined.

(** ** The argument of [parseYAML] *)

(** C10.  A [str] argument that names a file is read as that file, and
    only otherwise split into lines itself, so one string gives different
    trees on different file systems: ["x"] is a scalar where no file is
    called [x], and a one-item sequence where [x] is a file whose only
    line is ["- "]. *)
Theorem parseYAML_str_file_or_text :
  (forall fuel fs s,
      parseYAML fuel fs (SrcStr s) =
      parseYAML_inner fuel
        (gen_init (if isfile fs s then file_lines fs s else splitlines s)) 0)
  /\ (forall n,
        result_of (parseYAML (2 + n) no_files (SrcStr "x")) =
        Some (inl (YamlValue "x" (Some 1))))
  /\ (forall n,
        result_of (parseYAML (3 + n) (one_file "x" ["- " ++ nl]) (SrcStr "x")) =
        Some (inl (PList [PNone]))).
Proof.
  split; [|split].
  - intros fuel fs s. reflexivity.
  - intros n.
    destruct (parseYAML 2 no_files (SrcStr "x")) as [v g| |] eqn:E;
      try (vm_compute in E; discriminate).
    rewrite (parseYAML_mono 2 _ _ _ E) by (try discriminate; lia).
    vm_compute in E. injection E as <- _. reflexivity.
  - intros n.
    destruct (parseYAML 3 (one_file "x" ["- " ++ nl]) (SrcStr "x"))
      as [v g| |] eqn:E; try (vm_compute in E; discriminate).
    rewrite (parseYAML_mono 3 _ _ _ E) by (try discriminate; lia).
    vm_compute in E. injection E as <- _. reflexivity.
Qed.

(** ** Runs of content lines *)

Lemma join_more_text (p : string) (ps : list string) :
  join nl (p :: ps) = p ++ more_text ps.
Proof.
  revert p. induction ps as [|q ps IH]; intros p.
  - simpl. now rewrite append_nil_r.
  - change (join nl (p :: q :: ps)) with (p ++ nl ++ join nl (q :: ps)).
    rewrite IH. reflexivity.
Qed.

Lemma gen_next_draws (g : generator) (x : nat * string) (up : list (nat * string)) :
  queue g = [] -> upcoming g = x :: up ->
  exists g', gen_next g = (Yielded (Some x), g') /\
             queue g' = [] /\ upcoming g' = up.
Proof.
  intros Hq Hu. destruct (gen_next_queue_none g Hq) as (H1 & H2 & H3).
  rewrite Hu in *. exists (snd (gen_next g)).
  destruct (gen_next g) as [r g']; simpl in *. subst r. auto.
Qed.

Lemma gen_next_stops (g : generator) :
  queue g = [] -> upcoming g = [] ->
  gen_next g = (Raised StopIteration, snd (gen_next g)).
Proof.
  intros Hq Hu. destruct (gen_next_queue_none g Hq) as (H1 & _).
  rewrite Hu in H1. destruct (gen_next g) as [r g']; simpl in *. now subst r.
Qed.

Lemma drain_snd_S (n : nat) (g : generator) :
  snd (drain (S n) g) = snd (drain n (snd (gen_next g))).
Proof.
  simpl. destruct (gen_next g) as [r g']. simpl.
  destruct (drain n g'). reflexivity.
Qed.

(** What [content_payload] gives is what the loop body sees. *)
Lemma content_payload_inv (indent : nat) (line payload : string) :
  content_payload indent line = Some payload ->
  ignored line = false /\
  exists p, parse_line line = Some p /\ Nat.ltb (lineIndent p) indent = false
            /\ has_marker p = false /\ has_key p = false
            /\ lineContent p = payload /\ nonempty payload = true.
Proof.
  unfold content_payload.
  destruct (ignored line) eqn:Hi; [discriminate|].
  destruct (parse_line line) as [p|] eqn:Hp; [|discriminate].
  destruct (Nat.ltb (lineIndent p) indent) eqn:Hlt; [discriminate|].
  destruct (kind_of_line p) eqn:Hk; try discriminate.
  intros H; injection H as <-. split; [reflexivity|]. exists p.
  pose proof (content_payload_nonempty line p Hi Hp Hk) as Hne.
  unfold kind_of_line in Hk.
  destruct (has_marker p); [discriminate|].
  destruct (has_key p); [discriminate|]. repeat split; auto.
Qed.

(** Only a block of baseline 0 takes content lines, since their
    [lineIndent] is 0. *)
Lemma content_payload_deeper (indent : nat) (line : string) :
  content_payload (S indent) line = None.
Proof.
  unfold content_payload.
  destruct (ignored line); [reflexivity|].
  destruct (parse_line line) as [p|] eqn:Hp; [|reflexivity].
  destruct (Nat.ltb (lineIndent p) (S indent)) eqn:Hlt; [reflexivity|].
  destruct (kind_of_line p) eqn:Hk; try reflexivity.
  apply Nat.ltb_ge in Hlt.
  assert (lineIndent p = 0); [|lia].
  apply (no_marker_no_indent line p Hp).
  unfold kind_of_line in Hk. destruct (has_marker p); [discriminate|reflexivity].
Qed.

(** A content line met by a scalar: the text grows by a separator and
    the payload when there is text, and is set to the payload, with the
    number of this line, when there is none. *)
Lemma loop_body_content (source : generator) (indent : nat) (text : string)
      (ln : option nat) (linenumber : nat) (line payload : string) :
  content_payload indent line = Some payload ->
  loop_body source indent (YamlValue text ln) linenumber line =
  Continue source indent
    (if nonempty text then YamlValue (text ++ nl ++ payload) ln
     else YamlValue payload (Some linenumber)).
Proof.
  intros H. apply content_payload_inv in H.
  destruct H as (Hi & p & Hp & Hlt & Hm & Hk & <- & _).
  unfold loop_body. rewrite Hi, Hp, Hlt, Hm, Hk.
  unfold data_line, expectYAML. cbn [isinstance class_of pyclass_eqb truthy].
  destruct (nonempty text); reflexivity.
Qed.

(** The first content line of a block. *)
Lemma loop_body_first_content (source : generator) (indent : nat)
      (linenumber : nat) (line payload : string) :
  content_payload indent line = Some payload ->
  loop_body source indent PNone linenumber line =
  Continue source indent
    (if is_multiline_marker payload then YamlValue EmptyString (Some linenumber)
     else YamlValue payload (Some linenumber)).
Proof.
  intros H. apply content_payload_inv in H.
  destruct H as (Hi & p & Hp & Hlt & Hm & Hk & <- & _).
  unfold loop_body. rewrite Hi, Hp, Hlt, Hm, Hk.
  unfold data_line. destruct (is_multiline_marker (lineContent p)); reflexivity.
Qed.

(** A scalar that holds text takes a run of content lines, one turn of
    the loop each. *)
Lemma scalar_takes_run (indent : nat) (numbered : list (nat * string)) :
  forall payloads fuel g text ln more,
    content_run indent numbered payloads ->
    queue g = [] -> upcoming g = (numbered ++ more)%list ->
    nonempty text = true ->
    parseYAML_loop (length numbered + fuel) g indent (YamlValue text ln) =
    parseYAML_loop fuel (snd (drain (length numbered) g)) indent
                   (YamlValue (text ++ more_text payloads) ln)
    /\ queue (snd (drain (length numbered) g)) = []
    /\ upcoming (snd (drain (length numbered) g)) = more.
Proof.
  unfold content_run.
  induction numbered as [|[n l] numbered IH];
    intros payloads fuel g text ln more Hrun Hq Hu Hne.
  - destruct payloads; [|discriminate]. simpl. rewrite append_nil_r. auto.
  - destruct payloads as [|p payloads]; [discriminate|].
    cbn [map snd] in Hrun. injection Hrun as Hp Hrun.
    destruct (gen_next_draws g (n, l) _ Hq Hu) as (g' & Hn & Hq' & Hu').
    cbn [length]. rewrite drain_snd_S, Hn.
    cbn [snd Nat.add parseYAML_loop].
    unfold loop_step. rewrite Hn.
    rewrite (loop_body_content _ _ _ _ _ _ p Hp), Hne.
    destruct (IH payloads fuel g' (text ++ nl ++ p) ln more Hrun Hq' Hu')
      as (E & Hq'' & Hu''); [now apply nonempty_app_l|].
    rewrite E. cbn [more_text]. rewrite !append_assoc. auto.
Qed.

(** With queue and input exhausted the call returns what it holds. *)
Lemma loop_returns_at_end (fuel : nat) (g : generator) (indent : nat)
      (returnItem : node) :
  queue g = [] -> upcoming g = [] ->
  parseYAML_loop (S fuel) g indent returnItem =
  Return returnItem (snd (gen_next g)).
Proof.
  intros Hq Hu. simpl. unfold loop_step.
  rewrite (gen_next_stops g Hq Hu). reflexivity.
Qed.

(** C4, as stated, fails when the run starts with an introducer: the
    two lines are content lines with payloads [|] and [abc], and the
    scalar is [abc] from line 2, not the two payloads joined from
    line 1. *)
Lemma introducer_breaks_concatenation :
  content_run 0 (number_from 0 marker_then_text) ["|"; "abc"] /\
  exists g',
    parseYAML_inner 3 (gen_init marker_then_text) 0 =
      Return (YamlValue "abc" (Some 2)) g' /\
    YamlValue "abc" (Some 2) <> YamlValue (join nl ["|"; "abc"]) (Some 1).
Proof.
  split; [vm_compute; reflexivity|].
  eexists. split; [vm_compute; reflexivity|]. discriminate.
Qed.

(** ** Blank and comment lines *)

(** A blank line put before a scalar moves its [linenumber], the one
    thing of a returned value that such a line can change. *)
Lemma blank_line_shifts_linenumber :
  with_ignored ["a" ++ nl] [nl; "a" ++ nl] /\
  result_of (parseYAML 2 no_files (SrcLines ["a" ++ nl])) =
    Some (inl (YamlValue "a" (Some 1))) /\
  result_of (parseYAML 3 no_files (SrcLines [nl; "a" ++ nl])) =
    Some (inl (YamlValue "a" (Some 2))) /\
  YamlValue "a" (Some 1) <> YamlValue "a" (Some 2).
Proof.
  split; [|split; [|split]].
  - apply wi_more; [vm_compute; reflexivity|]. apply wi_same. apply wi_nil.
  - vm_compute. reflexivity.
  - vm_compute. reflexivity.
  - discriminate.
Qed.

Lemma map_snd_number_from (n : nat) (lines : list string) :
  map snd (number_from n lines) = lines.
Proof.
  revert n. induction lines as [|l ls IH]; intros n; simpl; [reflexivity|].
  now rewrite IH.
Qed.

(** What [next] does, by the queue and the lines to come. *)
Lemma gen_next_cases (g : generator) :
  (exists bl x g',
      queue g = (bl ++ [x])%list /\ gen_next g = (Yielded (Some x), g') /\
      status g' = Suspended /\ queue g' = bl /\ upcoming g' = upcoming g)
  \/ (exists x up g',
      queue g = [] /\ upcoming g = x :: up /\
      gen_next g = (Yielded (Some x), g') /\
      status g' = Suspended /\ queue g' = [] /\ upcoming g' = up)
  \/ (exists g',
      queue g = [] /\ upcoming g = [] /\
      gen_next g = (Raised StopIteration, g') /\
      queue g' = [] /\ upcoming g' = []).
Proof.
  destruct g as [st bl ln l used c pend].
  unfold queue, upcoming, gen_next, gen_send. cbn [status backlines usedLine
    count pending linenumber_ line_].
  destruct st.
  - right. rewrite gen_for_spec by reflexivity.
    destruct pend as [|l' ls].
    + right. eexists. repeat split.
    + left. eexists _, _, _. repeat split.
  - destruct (pop bl) as [[bl' x]|] eqn:Hp.
    + left. apply pop_some in Hp. subst bl.
      unfold gen_while. cbn [backlines]. rewrite pop_snoc.
      eexists _, _, _. repeat split.
    + right. apply pop_none in Hp. subst bl.
      unfold gen_while. cbn [backlines pop usedLine].
      destruct used; cbn [negb].
      * rewrite gen_for_spec by reflexivity.
        destruct pend as [|l' ls].
        -- right. eexists. repeat split.
        -- left. eexists _, _, _. repeat split.
      * left. eexists _, _, _. repeat split.
  - right. right. eexists. repeat split.
Qed.

(** What a push-back does to a suspended source. *)
Lemma send_back_suspended (x : nat * string) (g : generator) :
  status g = Suspended ->
  exists g', send_back x g = inr g' /\ status g' = Suspended /\
             queue g' = (queue g ++ [x])%list /\ upcoming g' = upcoming g.
Proof.
  destruct g as [st bl ln l used c pend]. cbn [status]. intros ->.
  unfold send_back, gen_send, queue, upcoming. cbn.
  eexists. repeat split.
Qed.

Lemma with_ignored_cons_inv (l1 l2 : string) (ls1 ls2 : list string) :
  with_ignored (l1 :: ls1) (l2 :: ls2) ->
  (l1 = l2 /\ with_ignored ls1 ls2)
  \/ (ignored l2 = true /\ with_ignored (l1 :: ls1) ls2).
Proof. intros H. inversion H; subst; auto. Qed.

Lemma with_ignored_nil_inv (l2 : string) (ls2 : list string) :
  with_ignored [] (l2 :: ls2) -> ignored l2 = true /\ with_ignored [] ls2.
Proof. intros H. inversion H; subst; auto. Qed.

(** Drawing from two sources that hold the same text: both give the
    same line, or both are exhausted, or the second gives an ignored
    line that the first does not have. *)
Lemma gen_next_sim (g1 g2 : generator) :
  same_source g1 g2 ->
  (exists n1 n2 l g1' g2',
      gen_next g1 = (Yielded (Some (n1, l)), g1') /\
      gen_next g2 = (Yielded (Some (n2, l)), g2') /\
      status g1' = Suspended /\ status g2' = Suspended /\
      same_source g1' g2')
  \/ (exists g1' g2',
      gen_next g1 = (Raised StopIteration, g1') /\
      gen_next g2 = (Raised StopIteration, g2') /\
      same_source g1' g2')
  \/ (exists n2 b g2',
      gen_next g2 = (Yielded (Some (n2, b)), g2') /\
      ignored b = true /\ same_source g1 g2' /\
      length (upcoming g2') < length (upcoming g2)).
Proof.
  intros [Hq Hu].
  destruct (gen_next_cases g1)
    as [(bl1 & x1 & g1' & Hq1 & Hn1 & Hs1 & Hq1' & Hu1')
       |[(x1 & up1 & g1' & Hq1 & Hu1 & Hn1 & Hs1 & Hq1' & Hu1')
        |(g1' & Hq1 & Hu1 & Hn1 & Hq1' & Hu1')]];
  destruct (gen_next_cases g2)
    as [(bl2 & x2 & g2' & Hq2 & Hn2 & Hs2 & Hq2' & Hu2')
       |[(x2 & up2 & g2' & Hq2 & Hu2 & Hn2 & Hs2 & Hq2' & Hu2')
        |(g2' & Hq2 & Hu2 & Hn2 & Hq2' & Hu2')]];
  rewrite ?Hq1, ?Hq2 in Hq;
  try (rewrite !map_app in Hq; cbn [map] in Hq);
  try (apply (f_equal (@length string)) in Hq;
       rewrite ?length_app in Hq; cbn [length] in Hq; lia).
  - (* both queues hold a line *)
    apply app_inj_tail in Hq. destruct Hq as [Hbl Hx].
    destruct x1 as [n1 l1], x2 as [n2 l2]. cbn [snd] in Hx. subst l2.
    left. exists n1, n2, l1, g1', g2'. repeat split; auto.
    + now rewrite Hq1', Hq2'.
    + now rewrite Hu1', Hu2'.
  - (* both draw from the input *)
    rewrite Hu1, Hu2 in Hu. cbn [map] in Hu.
    destruct x1 as [n1 l1], x2 as [n2 l2]. cbn [snd] in Hu.
    apply with_ignored_cons_inv in Hu. destruct Hu as [[-> Hw]|[Hb Hw]].
    + left. exists n1, n2, l2, g1', g2'. repeat split; auto.
      * now rewrite Hq1', Hq2'.
      * now rewrite Hu1', Hu2'.
    + right; right. exists n2, l2, g2'. repeat split; auto.
      * now rewrite Hq1, Hq2'.
      * rewrite Hu1, Hu2'. exact Hw.
      * rewrite Hu2, Hu2'. simpl. lia.
  - (* the first has a line to draw, the second is exhausted *)
    rewrite Hu1, Hu2 in Hu. inversion Hu.
  - (* the first is exhausted, the second has more lines *)
    rewrite Hu1, Hu2 in Hu. cbn [map] in Hu.
    destruct x2 as [n2 l2]. cbn [snd] in Hu.
    apply with_ignored_nil_inv in Hu. destruct Hu as [Hb Hw].
    right; right. exists n2, l2, g2'. repeat split; auto.
    + now rewrite Hq1, Hq2'.
    + rewrite Hu1, Hu2'. exact Hw.
    + rewrite Hu2, Hu2'. simpl. lia.
  - (* both exhausted *)
    right; left. exists g1', g2'. repeat split; auto.
    + now rewrite Hq1', Hq2'.
    + rewrite Hu1', Hu2'. constructor.
Qed.

Lemma forget_class (r1 r2 : node) :
  forget_lines r1 = forget_lines r2 -> class_of r1 = class_of r2.
Proof. destruct r1, r2; simpl; intros H; try discriminate; reflexivity. Qed.

Lemma same_exn_bad_yaml (r1 r2 : node) (n1 n2 : nat) (line : string)
      (expected : pyclass) :
  class_of r1 = class_of r2 ->
  same_exn (Exception (bad_yaml_message r1 n1 line expected))
           (Exception (bad_yaml_message r2 n2 line expected)).
Proof.
  intros Hc. right; left. exists r1, r2, n1, n2, line, expected. auto.
Qed.

Lemma expectYAML_sim (r1 r2 : node) (n1 n2 : nat) (line : string)
      (expected : pyclass) :
  forget_lines r1 = forget_lines r2 ->
  match expectYAML r1 n1 line expected, expectYAML r2 n2 line expected with
  | Some e1, Some e2 => same_exn e1 e2
  | None, None => True
  | _, _ => False
  end.
Proof.
  intros H. apply forget_class in H. unfold expectYAML, isinstance.
  rewrite H. destruct (pyclass_eqb (class_of r2) expected); [exact I|].
  now apply same_exn_bad_yaml.
Qed.

Lemma send_back_sim (n1 n2 : nat) (text : string) (s1 s2 : generator) :
  same_source s1 s2 -> status s1 = Suspended -> status s2 = Suspended ->
  exists s1' s2',
    send_back (n1, text) s1 = inr s1' /\ send_back (n2, text) s2 = inr s2' /\
    same_source s1' s2'.
Proof.
  intros [Hq Hu] H1 H2.
  destruct (send_back_suspended (n1, text) s1 H1) as (s1' & E1 & _ & Hq1 & Hu1).
  destruct (send_back_suspended (n2, text) s2 H2) as (s2' & E2 & _ & Hq2 & Hu2).
  exists s1', s2'. repeat split; auto.
  - rewrite Hq1, Hq2, !map_app, Hq. reflexivity.
  - now rewrite Hu1, Hu2.
Qed.

Lemma forget_dict_set (d1 d2 : list (string * node)) (key : string)
      (c1 c2 : node) :
  forget_lines (PDict d1) = forget_lines (PDict d2) ->
  forget_lines c1 = forget_lines c2 ->
  forget_lines (PDict (dict_set d1 key c1)) =
  forget_lines (PDict (dict_set d2 key c2)).
Proof.
  cbn [forget_lines]. intros H Hc. injection H as H. f_equal.
  revert d2 H. induction d1 as [|[k1 v1] d1 IH]; intros [|[k2 v2] d2] H;
    try discriminate.
  - simpl. now rewrite Hc.
  - cbn [map fst snd] in H. injection H as -> Hv Hd.
    cbn [dict_set]. destruct (String.eqb k2 key); cbn [map fst snd].
    + now rewrite Hc, Hd.
    + now rewrite Hv, (IH d2 Hd).
Qed.

(** The loop body on the same line, with sources and nodes that agree
    up to line numbers, decides the same. *)
Lemma loop_body_sim (s1 s2 : generator) (indent : nat) (r1 r2 : node)
      (n1 n2 : nat) (line : string) :
  same_source s1 s2 -> status s1 = Suspended -> status s2 = Suspended ->
  forget_lines r1 = forget_lines r2 ->
  sim_control (loop_body s1 indent r1 n1 line)
              (loop_body s2 indent r2 n2 line).
Proof.
  intros Hs H1 H2 Hr. unfold loop_body.
  destruct (ignored line); [cbn; auto|].
  destruct (parse_line line) as [p|].
  2:{ cbn. right; right. exists n1, n2, line. auto. }
  destruct (Nat.ltb (lineIndent p) indent).
  { destruct (send_back_sim n1 n2 line s1 s2 Hs H1 H2)
      as (s1' & s2' & -> & -> & Hs'). cbn. auto. }
  pose proof (fun c => expectYAML_sim r1 r2 n1 n2 line c Hr) as Hex.
  destruct (has_marker p); [|destruct (has_key p)].
  - (* array item *)
    unfold array_item. specialize (Hex cls_list).
    match goal with
    | |- context [send_back (n1, ?t) s1] =>
        destruct (send_back_sim n1 n2 t s1 s2 Hs H1 H2)
          as (s1' & s2' & E1 & E2 & Hs')
    end.
    rewrite E1, E2.
    destruct r1, r2; try discriminate Hr;
      try (destruct (expectYAML _ n1 line cls_list) as [e1|] eqn:X1;
           destruct (expectYAML _ n2 line cls_list) as [e2|] eqn:X2;
           try contradiction; try discriminate);
      cbn [sim_control sim_outcome]; auto;
      (split; [exact Hs'|]); (split; [reflexivity|]);
      intros c1 c2 Hc; cbn [forget_lines] in *;
      try (injection Hr as Hr); rewrite ?map_app; cbn [map];
      rewrite ?Hr, ?Hc; reflexivity.
  - (* dict item *)
    unfold dict_item. specialize (Hex cls_dict).
    match goal with
    | |- context [send_back (n1, ?t) s1] =>
        destruct (send_back_sim n1 n2 t s1 s2 Hs H1 H2)
          as (s1' & s2' & E1 & E2 & Hs')
    end.
    rewrite E1, E2.
    destruct r1, r2; try discriminate Hr;
      try (destruct (expectYAML _ n1 line cls_dict) as [e1|] eqn:X1;
           destruct (expectYAML _ n2 line cls_dict) as [e2|] eqn:X2;
           try contradiction; try discriminate);
      cbn [sim_control sim_outcome]; auto;
      (split; [exact Hs'|]); (split; [reflexivity|]);
      intros c1 c2 Hc; now apply forget_dict_set.
  - (* data *)
    unfold data_line. specialize (Hex cls_yamlValue).
    destruct r1, r2; try discriminate Hr;
      try (destruct (expectYAML _ n1 line cls_yamlValue) as [e1|] eqn:X1;
           destruct (expectYAML _ n2 line cls_yamlValue) as [e2|] eqn:X2;
           try contradiction; try discriminate);
      cbn [sim_control sim_outcome]; auto.
    + destruct (is_multiline_marker (lineContent p));
        cbn [sim_control sim_outcome truthy yamlValue nonempty]; auto.
    + cbn in Hr. injection Hr as ->.
      cbn [truthy]. destruct (nonempty value0); cbn; auto.
Qed.

(** One turn of the loop on two sources that hold the same text: the two
    turns decide the same, or the second only drops an ignored line that
    the first does not have. *)
Lemma loop_step_sim (s1 s2 : generator) (indent : nat) (r1 r2 : node) :
  same_source s1 s2 -> forget_lines r1 = forget_lines r2 ->
  sim_control (loop_step s1 indent r1) (loop_step s2 indent r2)
  \/ (exists s2', loop_step s2 indent r2 = Continue s2' indent r2 /\
                  same_source s1 s2' /\
                  length (upcoming s2') < length (upcoming s2)).
Proof.
  intros Hs Hr. unfold loop_step.
  destruct (gen_next_sim s1 s2 Hs)
    as [(n1 & n2 & l & g1' & g2' & -> & -> & H1 & H2 & Hs')
       |[(g1' & g2' & -> & -> & Hs')
        |(n2 & b & g2' & -> & Hb & Hs' & Hlen)]].
  - left. now apply loop_body_sim.
  - left. cbn. auto.
  - right. exists g2'. unfold loop_body. rewrite Hb. auto.
Qed.

Lemma sim_outcome_not_out (o1 o2 : outcome) :
  sim_outcome o1 o2 -> o1 <> OutOfFuel /\ o2 <> OutOfFuel.
Proof. destruct o1, o2; cbn; intros H; try contradiction; split; discriminate. Qed.

(** The run on the text with more ignored lines, when it ends, is
    matched by the run on the other text with the same fuel. *)
Lemma sim_back (fuel : nat) :
  forall s1 s2 indent r1 r2,
    same_source s1 s2 -> forget_lines r1 = forget_lines r2 ->
    parseYAML_loop fuel s2 indent r2 <> OutOfFuel ->
    sim_outcome (parseYAML_loop fuel s1 indent r1)
                (parseYAML_loop fuel s2 indent r2).
Proof.
  induction fuel as [|fuel IH]; intros s1 s2 indent r1 r2 Hs Hr Hne.
  - simpl in Hne. congruence.
  - destruct (loop_step_sim s1 s2 indent r1 r2 Hs Hr) as [Hc|(s2' & E & Hs' & _)].
    + simpl in *.
      destruct (loop_step s1 indent r1) as [o1|a1 i1 x1|a1 i1 st1];
        destruct (loop_step s2 indent r2) as [o2|a2 i2 x2|a2 i2 st2];
        cbn in Hc; try contradiction.
      * exact Hc.
      * destruct Hc as (Ha & <- & Hx). now apply IH.
      * destruct Hc as (Ha & <- & Hst).
        destruct (parseYAML_loop fuel a2 (i1 + 1) PNone) as [c2 b2| e2 |] eqn:E2;
          [| |congruence].
        -- pose proof (IH a1 a2 (i1 + 1) PNone PNone Ha eq_refl) as Hch.
           rewrite E2 in Hch. specialize (Hch ltac:(discriminate)).
           destruct (parseYAML_loop fuel a1 (i1 + 1) PNone) as [c1 b1| e1 |];
             cbn in Hch; try contradiction.
           destruct Hch as [Hcc Hb]. apply IH; auto.
        -- pose proof (IH a1 a2 (i1 + 1) PNone PNone Ha eq_refl) as Hch.
           rewrite E2 in Hch. specialize (Hch ltac:(discriminate)).
           destruct (parseYAML_loop fuel a1 (i1 + 1) PNone) as [c1 b1| e1 |];
             cbn in Hch; try contradiction. exact Hch.
    + assert (E2 : parseYAML_loop (S fuel) s2 indent r2 =
                   parseYAML_loop fuel s2' indent r2)
        by (simpl; rewrite E; reflexivity).
      rewrite E2 in *.
      pose proof (IH s1 s2' indent r1 r2 Hs' Hr Hne) as H.
      destruct (sim_outcome_not_out _ _ H) as [H1 _].
      rewrite (parseYAML_loop_mono fuel s1 indent r1 _ eq_refl H1 (S fuel))
        by lia.
      exact H.
Qed.

(** The run on a text, when it ends, is matched by the run on the text
    with more ignored lines, given fuel for the turns that drop them. *)
Lemma sim_forth (fuel : nat) :
  forall s1 s2 indent r1 r2,
    same_source s1 s2 -> forget_lines r1 = forget_lines r2 ->
    parseYAML_loop fuel s1 indent r1 <> OutOfFuel ->
    exists fuel',
      sim_outcome (parseYAML_loop fuel s1 indent r1)
                  (parseYAML_loop fuel' s2 indent r2).
Proof.
  induction fuel as [|fuel IH]; intros s1 s2 indent r1 r2 Hs Hr Hne.
  - simpl in Hne. congruence.
  - remember (length (upcoming s2)) as k eqn:Hk.
    revert s2 Hs Hk.
    induction k as [k IHk] using lt_wf_ind; intros s2 Hs Hk.
    destruct (loop_step_sim s1 s2 indent r1 r2 Hs Hr)
      as [Hc|(s2' & E & Hs' & Hlen)].
    + simpl in Hne |- *.
      destruct (loop_step s1 indent r1) as [o1|a1 i1 x1|a1 i1 st1] eqn:E1;
        destruct (loop_step s2 indent r2) as [o2|a2 i2 x2|a2 i2 st2] eqn:E2;
        cbn in Hc; try contradiction.
      * exists 1. simpl. rewrite E2. exact Hc.
      * destruct Hc as (Ha & <- & Hx).
        destruct (IH a1 a2 i1 x1 x2 Ha Hx Hne) as [f Hf].
        exists (S f). simpl. rewrite E2. exact Hf.
      * destruct Hc as (Ha & <- & Hst).
        destruct (parseYAML_loop fuel a1 (i1 + 1) PNone) as [c1 b1| e1 |] eqn:C1;
          [| |congruence].
        -- destruct (IH a1 a2 (i1 + 1) PNone PNone Ha eq_refl) as [fc Hfc];
             [congruence|].
           rewrite C1 in Hfc.
           destruct (parseYAML_loop fc a2 (i1 + 1) PNone) as [c2 b2| e2 |] eqn:C2;
             cbn in Hfc; try contradiction.
           destruct Hfc as [Hcc Hb].
           destruct (IH b1 b2 i1 (st1 c1) (st2 c2) Hb (Hst _ _ Hcc) Hne)
             as [fk Hfk].
           destruct (sim_outcome_not_out _ _ Hfk) as [_ Hk2].
           exists (S (Nat.max fc fk)). simpl. rewrite E2.
           rewrite (parseYAML_loop_mono fc _ _ _ _ C2) by (try discriminate; lia).
           rewrite (parseYAML_loop_mono fk _ _ _ _ eq_refl Hk2) by lia.
           exact Hfk.
        -- destruct (IH a1 a2 (i1 + 1) PNone PNone Ha eq_refl) as [fc Hfc];
             [congruence|].
           rewrite C1 in Hfc.
           destruct (parseYAML_loop fc a2 (i1 + 1) PNone) as [c2 b2| e2 |] eqn:C2;
             cbn in Hfc; try contradiction.
           exists (S fc). simpl. rewrite E2, C2. exact Hfc.
    + destruct (IHk (length (upcoming s2')) ltac:(lia) s2' Hs' eq_refl)
        as [f Hf].
      exists (S f). simpl parseYAML_loop at 2. rewrite E. exact Hf.
Qed.

Lemma sim_outcome_same (o1 o2 : outcome) :
  sim_outcome o1 o2 -> same_outcome o1 o2.
Proof.
  destruct o1, o2; cbn; try contradiction; auto. intros [H _]. exact H.
Qed.

Lemma same_source_init (ls1 ls2 : list string) :
  with_ignored ls1 ls2 -> same_source (gen_init ls1) (gen_init ls2).
Proof.
  intros H. split; [reflexivity|].
  unfold upcoming, gen_init. cbn. now rewrite !map_snd_number_from.
Qed.

(** * Further properties *)

(** ** Ignored lines *)

Lemma comment_star (s : string) :
  forall n g,
    match star is_space (rmatch (Chr "#") (fun st => Some st)) s n g with
    | Some _ => true
    | None => false
    end =
    match first_nonspace s with
    | Some c => Ascii.eqb c "#"
    | None => false
    end.
Proof.
  unfold first_nonspace.
  induction s as [|c s IH]; intros n g; [reflexivity|].
  cbn [star lstrip]. destruct (is_space c) eqn:Hc.
  - specialize (IH (S n) g).
    destruct (star is_space _ s (S n) g); [exact IH|].
    rewrite <- IH. cbn [rmatch rest].
    destruct (Ascii.eqb c "#") eqn:E; [|reflexivity].
    apply Ascii.eqb_eq in E. subst c. discriminate.
  - cbn [rmatch rest]. destruct (Ascii.eqb c "#"); reflexivity.
Qed.

Lemma ignored_by_first_nonspace (line : string) :
  ignored line =
  match first_nonspace line with
  | None => true
  | Some c => Ascii.eqb c "#"
  end.
Proof.
  unfold ignored. rewrite strip_nonempty, negb_involutive.
  change (re_match commentLineRegex line)
    with (star is_space (rmatch (Chr "#") (fun st => Some st)) line 0 []).
  rewrite (comment_star line 0 []).
  unfold first_nonspace, all_space.
  pose proof (all_space_lstrip line) as Hl. unfold all_space in Hl.
  destruct (lstrip line) as [|c s] eqn:El.
  - cbn in Hl. now rewrite <- Hl.
  - cbn [all_chars] in Hl. rewrite <- Hl.
    assert (Hc : is_space c = false).
    { clear - El. induction line as [|a l IH]; [discriminate|].
      cbn in El. destruct (is_space a) eqn:Ha; [auto|].
      injection El as -> _. exact Ha. }
    now rewrite Hc.
Qed.

(** X1.  A line is dropped by the loop exactly when it is all white
    space or its first character that is not white space is [#]. *)
Theorem ignored_first_nonspace (line : string) :
  ignored line =
  match first_nonspace line with
  | None => true
  | Some c => Ascii.eqb c "#"
  end.
Proof. exact (ignored_by_first_nonspace line). Qed.

(** ** Lines that [yamlLineRegex] matches *)

(** The greedy repetition takes a whole run of the class when the
    continuation accepts what follows it. *)
Lemma star_greedy (p : ascii -> bool) (k : mstate -> option mstate)
      (pre s' : string) (m : mstate) :
  forall n g,
    all_chars p pre = true -> stops p s' = true ->
    k (MState (n + String.length pre) s' g) = Some m ->
    star p k (pre ++ s') n g = Some m.
Proof.
  induction pre as [|c pre IH]; intros n g Hall Hstop Hk.
  - cbn in *. rewrite Nat.add_0_r in Hk.
    destruct s' as [|c s']; [exact Hk|].
    cbn in Hstop. apply negb_true_iff in Hstop.
    cbn [star]. now rewrite Hstop.
  - cbn [all_chars] in Hall. apply andb_prop in Hall. destruct Hall as [Hc Hall].
    cbn [append star]. rewrite Hc.
    rewrite (IH (S n) g Hall Hstop); [reflexivity|].
    cbn [String.length] in Hk. now rewrite Nat.add_succ_r in Hk.
Qed.

Lemma length_spaces (n : nat) : String.length (spaces n) = n.
Proof. induction n; simpl; auto. Qed.

Lemma all_sp_spaces (n : nat) : all_chars is_sp (spaces n) = true.
Proof. induction n; simpl; auto. Qed.

Lemma is_line_end_cases (w : string) :
  is_line_end w = true -> w = EmptyString \/ w = nl.
Proof.
  unfold is_line_end. intros H. apply orb_prop in H.
  destruct H as [H|H]; apply String.eqb_eq in H; auto.
Qed.

Lemma stops_app (p : ascii -> bool) (a b : string) :
  stops p a = true -> stops p b = true -> stops p (a ++ b) = true.
Proof. destruct a; auto. Qed.

(** After the payload of a line: the optional line feed, then the end. *)
Lemma line_end_matches (w : string) (n : nat) (g : list (string * string)) :
  is_line_end w = true ->
  star is_space (rmatch Eol (fun st => Some st)) w n g =
  Some (MState (n + String.length w) EmptyString g).
Proof.
  intros H. apply is_line_end_cases in H. destruct H as [-> | ->].
  - cbn. now rewrite Nat.add_0_r.
  - cbn. now rewrite Nat.add_1_r.
Qed.

Lemma item_line_parsed (n k : nat) (c w : string) :
  all_chars is_dot c = true -> stops is_sp c = true ->
  is_line_end w = true ->
  parse_line (spaces n ++ String "-" (spaces (S k) ++ c ++ w)) =
  Some (ParsedLine n (Some (String "-" (spaces (S k))))
                   EmptyString EmptyString (strip c)).
Proof.
  intros Hc Hstop Hw.
  unfold parse_line, re_match, yamlLineRegex.
  cbn [rmatch pos rest groups Nat.eqb].
  erewrite (star_greedy is_sp _ (spaces n));
    [ | apply all_sp_spaces | reflexivity | ].
  2:{ cbn [pos rest groups advance append spaces Ascii.eqb Bool.eqb is_sp SP].
      rewrite Nat.add_0_l, length_spaces.
      erewrite (star_greedy is_sp _ (spaces k) (c ++ w));
        [reflexivity | apply all_sp_spaces | | ].
      - apply stops_app; [exact Hstop|].
        apply is_line_end_cases in Hw. destruct Hw as [-> | ->]; reflexivity.
      - cbn [pos rest groups]. rewrite length_spaces.
        erewrite (star_greedy is_dot _ c w); [reflexivity | exact Hc | | ].
        + apply is_line_end_cases in Hw. destruct Hw as [-> | ->]; reflexivity.
        + cbn [pos rest groups].
          assert (He : at_eol w = true)
            by (apply is_line_end_cases in Hw; destruct Hw as [-> | ->];
                reflexivity).
          rewrite He.
          change (fun st : mstate => if at_eol (rest st) then Some st else None)
            with (rmatch Eol (fun st => Some st)).
          rewrite (line_end_matches w _ _ Hw). reflexivity. }
  cbn [groups group assoc String.eqb Ascii.eqb Bool.eqb or_str].
  rewrite (substring_prefix_len (spaces n)) by (rewrite length_spaces; lia).
  rewrite (substring_prefix_len (String "-" (String SP (spaces k))) (c ++ w))
    by (cbn [String.length]; rewrite length_spaces; lia).
  rewrite (substring_prefix_len c w) by lia.
  rewrite length_spaces. destruct c; reflexivity.
Qed.

(** X2.  A line made of [n] spaces, a dash, one or more spaces and a
    payload is an item line: its [lineIndent] is [n], its marker is the
    dash with the spaces after it, and its content is the payload
    stripped. *)
Theorem item_line_classified (n k : nat) (c w : string) :
  all_chars is_dot c = true -> stops is_sp c = true ->
  is_line_end w = true ->
  parse_line (spaces n ++ String "-" (spaces (S k) ++ c ++ w)) =
  Some (ParsedLine n (Some (String "-" (spaces (S k))))
                   EmptyString EmptyString (strip c)).
Proof. intros Hc Hstop Hw. now apply item_line_parsed. Qed.

Lemma item_line_classified_witness :
  parse_line ("    - x y" ++ nl) =
  Some (ParsedLine 4 (Some "- ") EmptyString EmptyString "x y").
Proof.
  apply (item_line_classified 4 0 "x y" nl); reflexivity.
Defined.

Lemma key_char_facts (a : ascii) :
  is_key_char a = true ->
  is_sp a = false /\ Ascii.eqb a "-" = false /\ is_space a = false
  /\ is_dot a = true.
Proof.
  destruct a as [[] [] [] [] [] [] [] []]; intros H;
    try discriminate H; repeat split.
Qed.

Lemma keyed_line_parsed (key : string) (k : nat) (c w : string) :
  nonempty key = true -> all_chars is_key_char key = true ->
  all_chars is_dot c = true -> stops is_sp c = true ->
  is_line_end w = true ->
  parse_line (key ++ String ":" (spaces k ++ c ++ w)) =
  Some (ParsedLine 0 None key (String ":" (spaces k)) (strip c)).
Proof.
  intros Hne Hkey Hc Hstop Hw.
  destruct key as [|c1 key]; [discriminate|]. clear Hne.
  cbn [all_chars] in Hkey. apply andb_prop in Hkey. destruct Hkey as [H1 Hkey].
  destruct (key_char_facts c1 H1) as (Hsp & Hdash & _ & _).
  assert (He : at_eol w = true)
    by (apply is_line_end_cases in Hw; destruct Hw as [-> | ->]; reflexivity).
  assert (Hwd : stops is_dot w = true)
    by (apply is_line_end_cases in Hw; destruct Hw as [-> | ->]; reflexivity).
  unfold parse_line, re_match, yamlLineRegex.
  cbn [rmatch pos rest groups Nat.eqb append star].
  rewrite Hsp. cbn [pos rest groups advance Nat.eqb]. rewrite Hdash, H1.
  erewrite (star_greedy is_key_char _ key); [ | exact Hkey | reflexivity | ].
  2:{ cbn [pos rest groups advance Ascii.eqb Bool.eqb].
      erewrite (star_greedy is_sp _ (spaces k) (c ++ w));
        [reflexivity | apply all_sp_spaces | | ].
      - apply stops_app; [exact Hstop|].
        apply is_line_end_cases in Hw. destruct Hw as [-> | ->]; reflexivity.
      - cbn [pos rest groups]. rewrite length_spaces.
        erewrite (star_greedy is_dot _ c w); [reflexivity | exact Hc | exact Hwd | ].
        cbn [pos rest groups].
        change (fun st : mstate => if at_eol (rest st) then Some st else None)
          with (rmatch Eol (fun st => Some st)).
        rewrite (line_end_matches w _ _ Hw). reflexivity. }
  cbn [groups group assoc String.eqb Ascii.eqb Bool.eqb or_str].
  rewrite (substring_prefix_len c w) by lia.
  rewrite (substring_prefix_len (String ":" (spaces k)) (c ++ w))
    by (cbn [String.length]; rewrite length_spaces; lia).
  change (String c1 (key ++ String ":" (spaces k ++ c ++ w)))
    with (String c1 key ++ String ":" (spaces k ++ c ++ w)).
  rewrite (substring_prefix_len (String c1 key)
             (String ":" (spaces k ++ c ++ w)) (1 + String.length key - 0))
    by (cbn [String.length]; lia).
  destruct c; reflexivity.
Qed.

(** X3.  A line that starts at column 0 with a key, a colon and any
    number of spaces is a key line with [lineIndent] 0; the key, the
    colon with its spaces and the stripped payload are told apart. *)
Theorem key_line_classified (key : string) (k : nat) (c w : string) :
  nonempty key = true -> all_chars is_key_char key = true ->
  all_chars is_dot c = true -> stops is_sp c = true ->
  is_line_end w = true ->
  parse_line (key ++ String ":" (spaces k ++ c ++ w)) =
  Some (ParsedLine 0 None key (String ":" (spaces k)) (strip c)).
Proof. intros Hne Hkey Hc Hstop Hw. now apply keyed_line_parsed. Qed.

Lemma key_line_classified_witness :
  parse_line ("data.x:  1 2" ++ nl) =
  Some (ParsedLine 0 None "data.x" ":  " "1 2").
Proof.
  apply (key_line_classified "data.x" 2 "1 2" nl); reflexivity.
Defined.

Lemma star_none (p : ascii -> bool) (k : mstate -> option mstate) (s : string) :
  forall n g, star p k s n g = None -> k (MState n s g) = None.
Proof.
  destruct s as [|c s]; intros n g H; cbn [star] in H; [exact H|].
  destruct (p c); [|exact H].
  destruct (star p k s (S n) g); [discriminate|exact H].
Qed.

Lemma lf_only_last_split (s : string) :
  lf_only_last s = true ->
  exists c w, s = c ++ w /\ all_chars is_dot c = true /\ is_line_end w = true.
Proof.
  induction s as [|a s IH]; intros H.
  - exists EmptyString, EmptyString. auto.
  - cbn [lf_only_last] in H. destruct (is_dot a) eqn:Ha.
    + destruct (IH H) as (c & w & -> & Hc & Hw).
      exists (String a c), w. cbn [all_chars append]. now rewrite Ha, Hc.
    + destruct s; [|discriminate].
      exists EmptyString, (String a EmptyString). repeat split.
      unfold is_dot in Ha. apply negb_false_iff, Ascii.eqb_eq in Ha. now subst a.
Qed.

Lemma plain_line_matches (line : string) :
  lf_only_last line = true -> exists p, parse_line line = Some p.
Proof.
  intros H. apply lf_only_last_split in H.
  destruct H as (c & w & -> & Hc & Hw).
  unfold parse_line.
  destruct (re_match yamlLineRegex (c ++ w)) as [m|] eqn:Hm; [eauto|].
  exfalso. revert Hm. unfold re_match, yamlLineRegex.
  cbn [rmatch pos rest groups Nat.eqb].
  intros Hm. apply star_none in Hm. cbn [pos rest groups Nat.eqb] in Hm.
  match type of Hm with
  | match ?a with Some _ => _ | None => _ end = _ => destruct a; [discriminate|]
  end.
  match type of Hm with
  | match ?a with Some _ => _ | None => _ end = _ => destruct a; [discriminate|]
  end.
  erewrite (star_greedy is_dot _ c w) in Hm; [discriminate | exact Hc | | ].
  - apply is_line_end_cases in Hw. destruct Hw as [-> | ->]; reflexivity.
  - cbn [pos rest groups].
    change (fun st : mstate => if at_eol (rest st) then Some st else None)
      with (rmatch Eol (fun st => Some st)).
    rewrite (line_end_matches w _ _ Hw). reflexivity.
Qed.

(** X4.  [yamlLineRegex] matches every line whose only line feed, if
    any, is its last character: on such lines the loop never raises
    [Unparseable YAML line]. *)
Theorem line_without_inner_lf_matches (line : string) :
  lf_only_last line = true -> exists p, parse_line line = Some p.
Proof. intros H. now apply plain_line_matches. Qed.

Lemma line_without_inner_lf_matches_witness :
  exists p, parse_line ("k: v # not a comment" ++ nl) = Some p.
Proof.
  apply (line_without_inner_lf_matches ("k: v # not a comment" ++ nl)).
  reflexivity.
Defined.

(** ** What a line leaves for the nested call *)

Lemma nonspace_app (a b : string) : nonspace (a ++ b) = nonspace a + nonspace b.
Proof. induction a as [|c a IH]; simpl; [reflexivity|]. rewrite IH. lia. Qed.

Lemma nonspace_spaces (n : nat) : nonspace (spaces n) = 0.
Proof. induction n; simpl; auto. Qed.

Lemma nonspace_all_space (s : string) : all_space s = true -> nonspace s = 0.
Proof.
  unfold all_space. induction s as [|c s IH]; simpl; [reflexivity|].
  intros H. apply andb_prop in H. destruct H as [Hc Hs]. rewrite Hc. auto.
Qed.

Lemma nonspace_lstrip (s : string) : nonspace (lstrip s) = nonspace s.
Proof.
  induction s as [|c s IH]; simpl; [reflexivity|].
  destruct (is_space c) eqn:Hc; simpl; [exact IH | now rewrite Hc].
Qed.

Lemma nonspace_rstrip (s : string) : nonspace (rstrip s) = nonspace s.
Proof.
  induction s as [|c s IH]; [reflexivity|].
  cbn [rstrip]. destruct (all_space (String c s)) eqn:Ha.
  - now rewrite (nonspace_all_space _ Ha).
  - simpl. now rewrite IH.
Qed.

Lemma nonspace_strip (s : string) : nonspace (strip s) = nonspace s.
Proof. unfold strip. now rewrite nonspace_rstrip, nonspace_lstrip. Qed.

Lemma all_dot_lstrip (s : string) :
  all_chars is_dot s = true -> all_chars is_dot (lstrip s) = true.
Proof.
  induction s as [|c s IH]; simpl; [auto|].
  intros H. destruct (is_space c); [|exact H].
  apply andb_prop in H. destruct H. auto.
Qed.

Lemma all_dot_rstrip (s : string) :
  all_chars is_dot s = true -> all_chars is_dot (rstrip s) = true.
Proof.
  induction s as [|c s IH]; [auto|].
  cbn [rstrip]. intros H. destruct (all_space (String c s)); [reflexivity|].
  cbn [all_chars] in *. apply andb_prop in H. destruct H as [Hc Hs].
  now rewrite Hc, IH.
Qed.

Lemma all_dot_strip (s : string) :
  all_chars is_dot s = true -> all_chars is_dot (strip s) = true.
Proof. intros H. unfold strip. now apply all_dot_rstrip, all_dot_lstrip. Qed.

Lemma all_dot_spaces (n : nat) : all_chars is_dot (spaces n) = true.
Proof. induction n; simpl; auto. Qed.

(** The three ways [yamlLineRegex] matches, with what the payload group
    holds: no line feed, and, for an item or a key line, fewer
    characters that are not white space than the line. *)
Lemma yamlLineRegex_payload (line : string) (m : mstate) :
  re_match yamlLineRegex line = Some m ->
  (exists ind mk c,
      groups m = [("itemContent", c); ("itemMarker", mk); ("indent", ind)]
      /\ nonempty mk = true /\ all_chars is_dot c = true
      /\ nonspace c < nonspace line)
  \/ (exists k ke c,
      groups m = [("content", c); ("keyExtra", ke); ("key", k);
                  ("indent", EmptyString)]
      /\ nonempty k = true /\ all_chars is_dot c = true
      /\ nonspace c < nonspace line)
  \/ (exists c w,
      groups m = [("content", c); ("indent", EmptyString)]
      /\ line = c ++ w /\ all_chars is_dot c = true /\ all_space w = true).
Proof.
  intros H.
  destruct (yamlLineRegex_inv line m H)
    as [(ind0 & mk0 & c0 & Hg0 & _)|[(k0 & ke0 & c0 & tl0 & Hg0 & _)|Hcontent]];
    [| |right; right; exact Hcontent].
  - (* the item alternative *)
    left. revert H. unfold re_match, yamlLineRegex.
    cbn [rmatch pos rest groups Nat.eqb].
    intros H. apply star_inv in H.
    destruct H as (ind & s1 & -> & Hind & H).
    cbn [pos rest groups] in H.
    rewrite Nat.add_0_l, Nat.sub_0_r, substring_prefix in H.
    match type of H with
    | match ?a with Some _ => _ | None => _ end = _ =>
        destruct a as [m1|] eqn:HA
    end.
    + injection H as ->.
      destruct s1 as [|c1 s1]; [discriminate|].
      destruct (Ascii.eqb c1 "-") eqn:Hc1; [|discriminate].
      apply Ascii.eqb_eq in Hc1. subst c1.
      cbn [advance pos rest groups] in HA.
      destruct s1 as [|c2 s2]; [discriminate|].
      destruct (is_sp c2) eqn:Hc2; [|discriminate].
      apply star_inv in HA. destruct HA as (sp & s3 & -> & Hsp & HA).
      cbn [pos rest groups] in HA.
      apply star_inv in HA. destruct HA as (c & s4 & -> & Hc & HA).
      cbn [pos rest groups] in HA.
      destruct (at_eol s4); [|discriminate].
      apply star_inv in HA. destruct HA as (w & s5 & -> & Hw & HA).
      cbn [pos rest groups] in HA.
      rewrite (substring_prefix_len c (w ++ s5)) in HA by lia.
      rewrite (substring_prefix_len (String "-" (String c2 sp)) (c ++ w ++ s5))
        in HA by (cbn [String.length]; lia).
      destruct (at_eol s5); [|discriminate].
      injection HA as <-. cbn [groups].
      eexists _, _, _. split; [reflexivity|]. split; [reflexivity|].
      split; [exact Hc|].
      rewrite nonspace_app. cbn [nonspace]. rewrite !nonspace_app.
      change (is_space "-") with false. cbv iota. lia.
    + (* the other alternative does not bind itemMarker *)
      exfalso.
      destruct (Nat.eqb (String.length ind) 0); [|discriminate].
      match type of H with
      | match ?a with Some _ => _ | None => _ end = _ =>
          destruct a as [m1|] eqn:HK
      end.
      * injection H as ->.
        destruct s1 as [|c1 s1]; [discriminate|].
        destruct (is_key_char c1); [|discriminate].
        apply star_inv in HK. destruct HK as (k & s2 & -> & _ & HK).
        cbn [pos rest groups] in HK.
        destruct s2 as [|c2 s2]; [discriminate|].
        destruct (Ascii.eqb c2 ":"); [|discriminate].
        cbn [advance pos rest groups] in HK.
        apply star_inv in HK. destruct HK as (ke & s3 & -> & _ & HK).
        cbn [pos rest groups] in HK.
        apply star_inv in HK. destruct HK as (c & s4 & -> & _ & HK).
        cbn [pos rest groups] in HK.
        apply star_inv in HK. destruct HK as (w & s5 & -> & _ & HK).
        cbn [pos rest groups] in HK.
        destruct (at_eol s5); [|discriminate].
        injection HK as <-. cbn [groups] in Hg0. discriminate.
      * apply star_inv in H. destruct H as (c & s2 & -> & _ & H).
        cbn [pos rest groups] in H.
        apply star_inv in H. destruct H as (w & s3 & -> & _ & H).
        cbn [pos rest groups] in H.
        destruct (at_eol s3); [|discriminate].
        injection H as <-. cbn [groups] in Hg0. discriminate.
  - (* the key alternative *)
    right; left. revert H. unfold re_match, yamlLineRegex.
    cbn [rmatch pos rest groups Nat.eqb].
    intros H. apply star_inv in H.
    destruct H as (ind & s1 & -> & Hind & H).
    cbn [pos rest groups] in H.
    rewrite Nat.add_0_l, Nat.sub_0_r, substring_prefix in H.
    match type of H with
    | match ?a with Some _ => _ | None => _ end = _ =>
        destruct a as [m1|] eqn:HA
    end.
    + (* the item alternative binds other groups *)
      exfalso. injection H as ->.
      destruct s1 as [|c1 s1]; [discriminate|].
      destruct (Ascii.eqb c1 "-"); [|discriminate].
      cbn [advance pos rest groups] in HA.
      destruct s1 as [|c2 s2]; [discriminate|].
      destruct (is_sp c2); [|discriminate].
      apply star_inv in HA. destruct HA as (sp & s3 & -> & _ & HA).
      cbn [pos rest groups] in HA.
      apply star_inv in HA. destruct HA as (c & s4 & -> & _ & HA).
      cbn [pos rest groups] in HA.
      destruct (at_eol s4); [|discriminate].
      apply star_inv in HA. destruct HA as (w & s5 & -> & _ & HA).
      cbn [pos rest groups] in HA.
      destruct (at_eol s5); [|discriminate].
      injection HA as <-. cbn [groups] in Hg0. discriminate.
    + clear HA.
      destruct (Nat.eqb (String.length ind) 0) eqn:Hz; [|discriminate].
      apply Nat.eqb_eq in Hz. destruct ind; [|discriminate]. clear Hz Hind.
      cbn [append String.length] in *.
      match type of H with
      | match ?a with Some _ => _ | None => _ end = _ =>
          destruct a as [m1|] eqn:HK
      end.
      * injection H as ->.
        destruct s1 as [|c1 s1]; [discriminate|].
        destruct (is_key_char c1) eqn:Hc1; [|discriminate].
        apply star_inv in HK. destruct HK as (k & s2 & -> & Hk & HK).
        cbn [pos rest groups] in HK.
        destruct s2 as [|c2 s2]; [discriminate|].
        destruct (Ascii.eqb c2 ":") eqn:Hc2; [|discriminate].
        cbn [advance pos rest groups] in HK.
        apply star_inv in HK. destruct HK as (ke & s3 & -> & Hke & HK).
        cbn [pos rest groups] in HK.
        apply star_inv in HK. destruct HK as (c & s4 & -> & Hc & HK).
        cbn [pos rest groups] in HK.
        apply star_inv in HK. destruct HK as (w & s5 & -> & Hw & HK).
        cbn [pos rest groups] in HK.
        rewrite (substring_prefix_len c (w ++ s5)) in HK by lia.
        rewrite (substring_prefix_len (String c2 ke) (c ++ w ++ s5))
          in HK by (cbn [String.length]; lia).
        rewrite (substring_prefix_len (String c1 k)
                   (String c2 (ke ++ c ++ w ++ s5)))
          in HK by (cbn [String.length]; lia).
        destruct (at_eol s5); [|discriminate].
        injection HK as <-. cbn [groups].
        eexists _, _, _. split; [reflexivity|]. split; [reflexivity|].
        split; [exact Hc|].
        destruct (key_char_facts c1 Hc1) as (_ & _ & Hns & _).
        cbn [nonspace]. rewrite Hns, !nonspace_app. cbn [nonspace].
        rewrite !nonspace_app. lia.
      * exfalso.
        apply star_inv in H. destruct H as (c & s2 & -> & _ & H).
        cbn [pos rest groups] in H.
        apply star_inv in H. destruct H as (w & s3 & -> & _ & H).
        cbn [pos rest groups] in H.
        destruct (at_eol s3); [|discriminate].
        injection H as <-. cbn [groups] in Hg0. discriminate.
Qed.

(** The payload of a matched line holds no line feed, and for an item
    or a key line it has fewer characters that are not white space than
    the line. *)
Lemma parse_line_payload (line : string) (p : parsedLine) :
  parse_line line = Some p ->
  all_chars is_dot (lineContent p) = true /\
  nonspace (lineContent p) <= nonspace line /\
  (has_marker p || has_key p = true ->
   nonspace (lineContent p) < nonspace line).
Proof.
  unfold parse_line.
  destruct (re_match yamlLineRegex line) as [m|] eqn:Hm; [|discriminate].
  intros H. injection H as <-.
  unfold has_marker, has_key, group.
  destruct (yamlLineRegex_payload line m Hm)
    as [(ind & mk & c & -> & Hmk & Hc & Hlt)
       |[(k & ke & c & -> & Hk & Hc & Hlt)
        |(c & w & -> & -> & Hc & Hw)]];
    cbn [assoc String.eqb Ascii.eqb Bool.eqb lineItemMarker lineKey lineIndent
         lineContent or_str].
  - assert (E : strip (if nonempty c then c else EmptyString) = strip c)
      by (destruct c; reflexivity).
    rewrite E, nonspace_strip. split; [now apply all_dot_strip|]. split; lia.
  - assert (E : strip (if nonempty c then c else EmptyString) = strip c)
      by (destruct c; reflexivity).
    rewrite E, nonspace_strip. split; [now apply all_dot_strip|]. split; lia.
  - assert (E : strip (if nonempty c then c else EmptyString) = strip c)
      by (destruct c; reflexivity).
    rewrite E, nonspace_strip, nonspace_app.
    split; [now apply all_dot_strip|]. split; [lia|].
    cbn. discriminate.
Qed.

Lemma all_dot_lf_only_last (s : string) :
  all_chars is_dot s = true -> lf_only_last s = true.
Proof.
  induction s as [|c s IH]; [reflexivity|].
  cbn [all_chars lf_only_last]. intros H. apply andb_prop in H.
  destruct H as [Hc Hs]. rewrite Hc. auto.
Qed.

Lemma lines_weight_app (a b : list string) :
  lines_weight (a ++ b) = lines_weight a + lines_weight b.
Proof. unfold lines_weight. now rewrite map_app, list_sum_app. Qed.

Lemma lines_ok_app (a b : list string) :
  lines_ok (a ++ b) = lines_ok a && lines_ok b.
Proof. unfold lines_ok. apply forallb_app. Qed.

(** What [next] gives and what the source holds afterwards. *)
Lemma gen_next_held (g : generator) :
  match gen_next g with
  | (Yielded (Some x), g') =>
      status g' = Suspended /\
      exists a b, held g = (a ++ snd x :: b)%list /\ held g' = (a ++ b)%list
  | (Yielded None, _) => False
  | (Raised e, g') => e = StopIteration /\ held g' = []
  end.
Proof.
  unfold held.
  destruct (gen_next_cases g)
    as [(bl & x & g' & Hq & -> & Hs & Hq' & Hu')
       |[(x & up & g' & Hq & Hu & -> & Hs & Hq' & Hu')
        |(g' & Hq & Hu & -> & Hq' & Hu')]].
  - split; [exact Hs|]. exists (map snd bl), (map snd (upcoming g)).
    rewrite Hq, Hq', Hu', !map_app. cbn [map]. now rewrite <- app_assoc.
  - split; [exact Hs|]. exists [], (map snd up).
    rewrite Hq, Hu, Hq', Hu'. auto.
  - rewrite Hq', Hu'. auto.
Qed.

(** What a push-back leaves in a suspended source. *)
Lemma send_back_held (x : nat * string) (g : generator) :
  status g = Suspended ->
  exists g', send_back x g = inr g' /\ status g' = Suspended /\
             exists a b, held g = (a ++ b)%list /\
                         held g' = (a ++ snd x :: b)%list.
Proof.
  intros H. destruct (send_back_suspended x g H) as (g' & E & Hs & Hq & Hu).
  exists g'. split; [exact E|]. split; [exact Hs|].
  exists (map snd (queue g)), (map snd (upcoming g)). unfold held.
  rewrite Hq, Hu, !map_app. cbn [map]. now rewrite <- app_assoc.
Qed.

Lemma lines_mid (a b : list string) (x : string) :
  lines_weight (a ++ x :: b) = lines_weight (a ++ b) + S (nonspace x) /\
  lines_ok (a ++ x :: b) = lines_ok (a ++ b) && lf_only_last x.
Proof.
  rewrite !lines_weight_app, !lines_ok_app.
  unfold lines_weight, lines_ok. cbn [map forallb].
  change (list_sum (S (nonspace x) :: map (fun l => S (nonspace l)) b))
    with (S (nonspace x) + list_sum (map (fun l => S (nonspace l)) b)).
  split; [lia|].
  destruct (forallb lf_only_last a), (lf_only_last x),
    (forallb lf_only_last b); reflexivity.
Qed.

Lemma next_effect (g g1 : generator) (n : nat) (l : string) :
  gen_next g = (Yielded (Some (n, l)), g1) ->
  status g1 = Suspended /\
  lines_weight (held g) = lines_weight (held g1) + S (nonspace l) /\
  lines_ok (held g) = lines_ok (held g1) && lf_only_last l.
Proof.
  intros H. pose proof (gen_next_held g) as Hh. rewrite H in Hh.
  destruct Hh as (Hs & a & b & -> & ->). cbn [snd].
  split; [exact Hs|]. apply lines_mid.
Qed.

Lemma send_effect (g1 : generator) (n : nat) (t : string) :
  status g1 = Suspended ->
  exists g2, send_back (n, t) g1 = inr g2 /\
             lines_weight (held g2) = lines_weight (held g1) + S (nonspace t) /\
             lines_ok (held g2) = lines_ok (held g1) && lf_only_last t.
Proof.
  intros H. destruct (send_back_held (n, t) g1 H)
    as (g2 & E & _ & a & b & E1 & E2).
  exists g2. split; [exact E|]. rewrite E1, E2. apply lines_mid.
Qed.

Lemma expectYAML_bad (r : node) (n : nat) (l : string) (c : pyclass) (e : exn) :
  expectYAML r n l c = Some e -> is_bad_yaml e.
Proof.
  unfold expectYAML. destruct (isinstance r c); [discriminate|].
  intros H. injection H as <-. now exists r, n, l, c.
Qed.

Lemma expectYAML_class (r : node) (n : nat) (l : string) (c : pyclass) :
  expectYAML r n l c = None -> class_of r = c.
Proof.
  unfold expectYAML, isinstance.
  destruct (pyclass_eqb (class_of r) c) eqn:E; [|discriminate].
  intros _. destruct (class_of r), c; try discriminate; reflexivity.
Qed.

(** One turn of the loop, by what the source holds before and after:
    a turn that goes on or recurses has taken weight off the source, a
    [return] has not added any, lines without inner line feed stay so,
    and on such lines the only exception is that of [expectYAML]. *)
Lemma loop_step_effect (g : generator) (indent : nat) (r : node) :
  match loop_step g indent r with
  | Finish (Return v g') =>
      v = r /\ lines_weight (held g') <= lines_weight (held g) /\
      (lines_ok (held g) = true -> lines_ok (held g') = true)
  | Finish (Raise e) => lines_ok (held g) = true -> is_bad_yaml e
  | Finish OutOfFuel => False
  | Continue g' _ _ | Recurse g' _ _ =>
      lines_weight (held g') < lines_weight (held g) /\
      (lines_ok (held g) = true -> lines_ok (held g') = true)
  end.
Proof.
  unfold loop_step. pose proof (gen_next_held g) as Hh.
  destruct (gen_next g) as [[[[n l]|]|e] g1] eqn:Hn; [|contradiction|].
  2:{ destruct Hh as [-> Hh]. rewrite Hh. cbn. repeat split; auto. lia. }
  clear Hh. destruct (next_effect g g1 n l Hn) as (Hs & Hw & Hok).
  rewrite Hw, Hok. clear Hn Hw Hok.
  assert (Hok1 : lines_ok (held g1) && lf_only_last l = true ->
                 lines_ok (held g1) = true)
    by (intros H; apply andb_prop in H; tauto).
  unfold loop_body.
  destruct (ignored l); [split; [lia|exact Hok1]|].
  destruct (parse_line l) as [p|] eqn:Hp.
  2:{ intros H. apply andb_prop in H. destruct H as [_ H].
      destruct (plain_line_matches l H) as [p Hp']. congruence. }
  destruct (parse_line_payload l p Hp) as (Hdot & Hle & Hlt).
  destruct (Nat.ltb (lineIndent p) indent).
  { destruct (send_effect g1 n l Hs) as (g2 & -> & Hw2 & Hok2).
    rewrite Hw2, Hok2. repeat split; auto. }
  assert (Hsyn : forall k, lf_only_last (spaces k ++ lineContent p) = true).
  { intros k. apply all_dot_lf_only_last. rewrite all_chars_app.
    now rewrite all_dot_spaces, Hdot. }
  assert (Hns : forall k, nonspace (spaces k ++ lineContent p) =
                          nonspace (lineContent p)).
  { intros k. now rewrite nonspace_app, nonspace_spaces. }
  destruct (has_marker p) eqn:Hm; [|destruct (has_key p) eqn:Hk].
  - (* array item *)
    specialize (Hlt eq_refl). unfold array_item.
    match goal with
    | |- context [send_back (n, spaces ?k ++ _) g1] =>
        destruct (send_effect g1 n (spaces k ++ lineContent p) Hs)
          as (g2 & E & Hw2 & Hok2); rewrite E; specialize (Hsyn k);
        specialize (Hns k)
    end.
    rewrite Hns in Hw2. rewrite Hsyn, andb_true_r in Hok2.
    destruct r as [|items|entries|value ln];
      try (destruct (expectYAML _ n l cls_list) as [e|] eqn:X;
           [cbn; intros _; eapply expectYAML_bad; eauto
           |apply expectYAML_class in X; try discriminate X]);
      cbn; rewrite Hw2, Hok2; (split; [lia|exact Hok1]).
  - (* dict item *)
    assert (Hlt' : nonspace (lineContent p) < nonspace l)
      by (apply Hlt; now rewrite orb_true_r).
    unfold dict_item.
    match goal with
    | |- context [send_back (n, spaces ?k ++ _) g1] =>
        destruct (send_effect g1 n (spaces k ++ lineContent p) Hs)
          as (g2 & E & Hw2 & Hok2); rewrite E; specialize (Hsyn k);
        specialize (Hns k)
    end.
    rewrite Hns in Hw2. rewrite Hsyn, andb_true_r in Hok2.
    destruct r as [|items|entries|value ln];
      try (destruct (expectYAML _ n l cls_dict) as [e|] eqn:X;
           [cbn; intros _; eapply expectYAML_bad; eauto
           |apply expectYAML_class in X; try discriminate X]);
      cbn; rewrite Hw2, Hok2; (split; [lia|exact Hok1]).
  - (* data *)
    unfold data_line.
    destruct r as [|items|entries|value ln];
      try (destruct (expectYAML _ n l cls_yamlValue) as [e|] eqn:X;
           [cbn; intros _; eapply expectYAML_bad; eauto
           |apply expectYAML_class in X; try discriminate X]).
    + destruct (is_multiline_marker (lineContent p)); cbn;
        (split; [lia|exact Hok1]).
    + destruct (truthy (YamlValue value ln)); cbn; (split; [lia|exact Hok1]).
Qed.

(** ** The call ends, and how it can fail *)

Lemma held_init (lines : list string) : held (gen_init lines) = lines.
Proof. unfold held, gen_init, queue, upcoming. cbn. apply map_snd_number_from. Qed.

(** With more fuel than the weight of what the source holds, the loop
    ends, and a call that returns has not added weight to the source. *)
Lemma loop_ends (fuel : nat) :
  forall g indent r,
    lines_weight (held g) < fuel ->
    parseYAML_loop fuel g indent r <> OutOfFuel /\
    forall v g', parseYAML_loop fuel g indent r = Return v g' ->
                 lines_weight (held g') <= lines_weight (held g).
Proof.
  induction fuel as [|fuel IH]; intros g indent r Hlt; [lia|].
  cbn [parseYAML_loop].
  pose proof (loop_step_effect g indent r) as He.
  destruct (loop_step g indent r) as [[v g'|e|]|g' i' r'|g' i' store].
  - split; [discriminate|]. intros v0 g0 E. injection E as <- <-.
    tauto.
  - split; [discriminate|]. discriminate.
  - contradiction.
  - destruct He as [Hw _].
    destruct (IH g' i' r' ltac:(lia)) as [Hne Hret].
    split; [exact Hne|]. intros v g0 E. specialize (Hret v g0 E). lia.
  - destruct He as [Hw _].
    destruct (IH g' (i' + 1) PNone ltac:(lia)) as [Hne Hret].
    destruct (parseYAML_loop fuel g' (i' + 1) PNone) as [child g''|e|];
      [|split; discriminate|congruence].
    specialize (Hret child g'' eq_refl).
    destruct (IH g'' i' (store child) ltac:(lia)) as [Hne' Hret'].
    split; [exact Hne'|]. intros v g0 E. specialize (Hret' v g0 E). lia.
Qed.

(** X5.  [parseYAML] ends on every input: with more fuel than one for
    each line plus one for each character that is not white space, the
    call returns or raises.  The fuel is a depth, which the nested call
    and the rest of the caller's loop both receive whole; the bound is
    on the longest chain of turns and nested calls, not on their
    number. *)
Theorem parseYAML_ends (fs : filesystem) (source : py_source) (fuel : nat) :
  lines_weight (source_lines fs source) < fuel ->
  parseYAML fuel fs source <> OutOfFuel.
Proof.
  intros H. unfold parseYAML, parseYAML_inner, parseYAML_generator.
  apply loop_ends. now rewrite held_init.
Qed.

Lemma parseYAML_ends_witness :
  parseYAML 11 no_files (SrcStr scenario4) <> OutOfFuel.
Proof.
  apply (parseYAML_ends no_files (SrcStr scenario4) 11).
  vm_compute. lia.
Defined.

(** On lines without inner line feed the loop raises nothing but the
    exception of [expectYAML], and leaves such lines in the source. *)
Lemma loop_errors (fuel : nat) :
  forall g indent r,
    lines_ok (held g) = true ->
    match parseYAML_loop fuel g indent r with
    | Return _ g' => lines_ok (held g') = true
    | Raise e => is_bad_yaml e
    | OutOfFuel => True
    end.
Proof.
  induction fuel as [|fuel IH]; intros g indent r Hok; [exact I|].
  cbn [parseYAML_loop].
  pose proof (loop_step_effect g indent r) as He.
  destruct (loop_step g indent r) as [[v g'|e|]|g' i' r'|g' i' store].
  - tauto.
  - auto.
  - contradiction.
  - destruct He as [_ Hok']. apply IH. auto.
  - destruct He as [_ Hok']. specialize (Hok' Hok).
    pose proof (IH g' (i' + 1) PNone Hok') as Hc.
    destruct (parseYAML_loop fuel g' (i' + 1) PNone) as [child g''|e|];
      [apply IH; exact Hc | exact Hc | exact I].
Qed.

Lemma linebreak_or_dot (c : ascii) : is_linebreak c = false -> is_dot c = true.
Proof.
  unfold is_dot. destruct (Ascii.eqb c LF) eqn:E; [|reflexivity].
  apply Ascii.eqb_eq in E. subst c. discriminate.
Qed.

Lemma lf_only_last_single (c : ascii) :
  lf_only_last (String c EmptyString) = true.
Proof. cbn. destruct (is_dot c); reflexivity. Qed.

(** Every line of [str.splitlines] holds a line feed at most at its
    end. *)
Lemma splitlines_ok (s : string) : lines_ok (splitlines s) = true.
Proof.
  remember (String.length s) as n eqn:Hn.
  revert s Hn. induction n as [n IH] using lt_wf_ind; intros s Hn.
  destruct s as [|c s']; [reflexivity|].
  cbn [splitlines]. destruct (is_linebreak c) eqn:Hc.
  - destruct s' as [|c' s''].
    + unfold lines_ok. cbn [forallb]. now rewrite lf_only_last_single.
    + destruct (Ascii.eqb c CR && Ascii.eqb c' LF) eqn:E.
      * apply andb_prop in E. destruct E as [E1 E2].
        apply Ascii.eqb_eq in E1, E2. subst c c'.
        unfold lines_ok. cbn [forallb].
        change (lf_only_last (String CR (String LF EmptyString))) with true.
        apply (IH (String.length s'')); [subst n; cbn; lia|reflexivity].
      * unfold lines_ok. cbn [forallb]. rewrite lf_only_last_single.
        apply (IH (String.length (String c' s''))); [subst n; cbn; lia|reflexivity].
  - apply linebreak_or_dot in Hc.
    pose proof (IH (String.length s') ltac:(subst n; cbn; lia) s' eq_refl) as H.
    destruct (splitlines s') as [|l ls].
    + unfold lines_ok. cbn [forallb]. now rewrite lf_only_last_single.
    + unfold lines_ok in *. cbn [forallb lf_only_last] in *. now rewrite Hc.
Qed.

(** X6.  On an input whose lines hold no line feed before their end the
    only exception [parseYAML] raises is the [Bad YAML] one of
    [expectYAML]; a text given as a [str] that names no file is such an
    input. *)
Theorem parseYAML_only_bad_yaml :
  (forall fs source fuel e,
      lines_ok (source_lines fs source) = true ->
      parseYAML fuel fs source = Raise e -> is_bad_yaml e)
  /\ (forall fs s fuel e,
        isfile fs s = false ->
        parseYAML fuel fs (SrcStr s) = Raise e -> is_bad_yaml e).
Proof.
  assert (H : forall fs source fuel e,
             lines_ok (source_lines fs source) = true ->
             parseYAML fuel fs source = Raise e -> is_bad_yaml e).
  { intros fs source fuel e Hok E.
    unfold parseYAML, parseYAML_inner, parseYAML_generator in E.
    pose proof (loop_errors fuel (gen_init (source_lines fs source)) 0 PNone) as L.
    rewrite held_init, E in L. auto. }
  split; [exact H|].
  intros fs s fuel e Hf. apply H. cbn [source_lines]. rewrite Hf.
  apply splitlines_ok.
Qed.

Lemma parseYAML_only_bad_yaml_witness :
  is_bad_yaml (Exception
    "Bad YAML, got a type item while working on a dict on line 1:    1").
Proof.
  apply (proj2 parseYAML_only_bad_yaml no_files scenario1 2).
  - reflexivity.
  - vm_compute. reflexivity.
Defined.

(** ** The line source without push-backs *)

Lemma drain_fst_S (n : nat) (g : generator) :
  fst (drain (S n) g) = fst (gen_next g) :: fst (drain n (snd (gen_next g))).
Proof.
  simpl. destruct (gen_next g) as [r g']. simpl.
  destruct (drain n g'). reflexivity.
Qed.

Lemma drain_upcoming (up : list (nat * string)) :
  forall g,
    queue g = [] -> upcoming g = up ->
    fst (drain (S (length up)) g) =
    (map (fun x => Yielded (Some x)) up ++ [Raised StopIteration])%list.
Proof.
  induction up as [|x up IH]; intros g Hq Hu.
  - rewrite drain_fst_S. rewrite (gen_next_stops g Hq Hu). reflexivity.
  - destruct (gen_next_draws g x up Hq Hu) as (g' & Hn & Hq' & Hu').
    cbn [length]. rewrite drain_fst_S, Hn. cbn [fst snd map app].
    now rewrite (IH g' Hq' Hu').
Qed.

(** X7.  Left alone, the line source hands out every line of the input
    once, in order, the first as line 1, and then signals the end. *)
Theorem line_source_enumerates (lines : list string) :
  fst (drain (S (length lines)) (gen_init lines)) =
  (map (fun x => Yielded (Some x)) (number_from 0 lines)
     ++ [Raised StopIteration])%list.
Proof.
  assert (E : length lines = length (number_from 0 lines)).
  { generalize 0. induction lines as [|l ls IH]; intros n; simpl; auto. }
  rewrite E. apply drain_upcoming; reflexivity.
Qed.

(** X8.  The end of the input is final: once [next] has signalled it,
    every later [next] signals it again and a push-back is refused. *)
Theorem line_source_end_is_final (g : generator) (v : option (nat * string)) :
  fst (gen_next g) = Raised StopIteration ->
  gen_send v (snd (gen_next g)) = (Raised StopIteration, snd (gen_next g)).
Proof.
  intros H.
  assert (Hs : status (snd (gen_next g)) = Done).
  { revert H. unfold gen_next, gen_send.
    destruct g as [st bl ln l used c pend]. cbn [status pending backlines].
    destruct st.
    - rewrite gen_for_spec by reflexivity. destruct pend; [reflexivity|discriminate].
    - unfold gen_while. cbn [backlines usedLine].
      destruct (pop bl) as [[bl' x]|] eqn:Hp; [discriminate|].
      apply pop_none in Hp. subst bl.
      destruct used; [|discriminate]. cbn [negb].
      rewrite gen_for_spec by reflexivity. destruct pend; [reflexivity|discriminate].
    - reflexivity. }
  unfold gen_send. rewrite Hs. reflexivity.
Qed.

Lemma line_source_end_is_final_witness :
  gen_send (Some (1, "late")) (snd (gen_next (gen_init []))) =
  (Raised StopIteration, snd (gen_next (gen_init []))).
Proof.
  apply (line_source_end_is_final (gen_init []) (Some (1, "late"))).
  reflexivity.
Defined.

(** ** Blocks and the lines they leave *)

Lemma gen_next_after_send (g : generator) (x : nat * string) :
  status g = Suspended ->
  exists g', send_back x g = inr g' /\ gen_next g' = (Yielded (Some x), g).
Proof.
  destruct g as [st bl ln l used c pend]. cbn [status]. intros ->.
  eexists. split; [reflexivity|].
  unfold gen_next, gen_send, gen_while. cbn [status backlines].
  rewrite pop_snoc. reflexivity.
Qed.

(** X9.  A line less indented than the baseline of the block ends the
    call without being used up: the call returns what it holds, and the
    next line the source hands out is that very line, after which the
    source is as it was when the call drew it. *)
Theorem outdented_line_handed_back (fuel : nat) (source source1 : generator)
        (indent : nat) (returnItem : node) (linenumber : nat) (line : string)
        (p : parsedLine) :
  gen_next source = (Yielded (Some (linenumber, line)), source1) ->
  ignored line = false -> parse_line line = Some p ->
  lineIndent p < indent ->
  exists source2,
    parseYAML_loop (S fuel) source indent returnItem =
      Return returnItem source2 /\
    gen_next source2 = (Yielded (Some (linenumber, line)), source1).
Proof.
  intros Hn Hi Hp Hlt.
  destruct (next_effect _ _ _ _ Hn) as (Hs & _).
  destruct (gen_next_after_send source1 (linenumber, line) Hs)
    as (source2 & E & Hn2).
  exists source2. split; [|exact Hn2].
  cbn [parseYAML_loop]. unfold loop_step. rewrite Hn.
  unfold loop_body. rewrite Hi, Hp.
  apply Nat.ltb_lt in Hlt. rewrite Hlt, E. reflexivity.
Qed.

Lemma outdented_line_handed_back_witness :
  exists source2,
    parseYAML_loop 1 (gen_init ["b: 2" ++ nl]) 3 (PList [PNone]) =
      Return (PList [PNone]) source2 /\
    gen_next source2 =
      (Yielded (Some (1, "b: 2" ++ nl)),
       snd (gen_next (gen_init ["b: 2" ++ nl]))).
Proof.
  apply (outdented_line_handed_back 0 (gen_init ["b: 2" ++ nl]) _ 3
           (PList [PNone]) 1 ("b: 2" ++ nl)
           (ParsedLine 0 None "b" ": " "2")).
  - reflexivity.
  - vm_compute. reflexivity.
  - vm_compute. reflexivity.
  - simpl. lia.
Defined.

Lemma gen_next_short_queue (g : generator) :
  length (queue g) <= 1 ->
  match gen_next g with
  | (Yielded _, g1) => status g1 = Suspended /\ queue g1 = []
  | (Raised _, g1) => queue g1 = []
  end.
Proof.
  intros Hq.
  destruct (gen_next_cases g)
    as [(bl & x & g1 & Hq1 & -> & Hs & Hq' & _)
       |[(x & up & g1 & _ & _ & -> & Hs & Hq' & _)
        |(g1 & _ & _ & -> & Hq' & _)]]; auto.
  split; [exact Hs|]. rewrite Hq1, length_app in Hq. cbn in Hq.
  rewrite Hq'. destruct bl; [reflexivity|cbn in Hq; lia].
Qed.

(** One turn of the loop with at most one line queued: the queue is
    empty once the line is drawn, and holds one line after a push-back. *)
Lemma loop_step_queue (g : generator) (indent : nat) (r : node) :
  length (queue g) <= 1 ->
  match loop_step g indent r with
  | Finish (Return _ g') | Continue g' _ _ | Recurse g' _ _ =>
      length (queue g') <= 1
  | Finish _ => True
  end.
Proof.
  intros Hq. unfold loop_step.
  pose proof (gen_next_short_queue g Hq) as Hn.
  destruct (gen_next g) as [[[[n l]|]|e] g1].
  2:{ exact I. }
  2:{ destruct e; try exact I. rewrite Hn. simpl. lia. }
  destruct Hn as [Hs Hz].
  assert (Hz1 : length (queue g1) <= 1) by (rewrite Hz; simpl; lia).
  assert (Hsend : forall y, exists g2, send_back y g1 = inr g2 /\
                                       length (queue g2) <= 1).
  { intros y. destruct (send_back_suspended y g1 Hs) as (g2 & E & _ & Hq2 & _).
    exists g2. split; [exact E|]. rewrite Hq2, Hz. simpl. lia. }
  unfold loop_body.
  destruct (ignored l); [exact Hz1|].
  destruct (parse_line l) as [p|]; [|exact I].
  destruct (Nat.ltb (lineIndent p) indent).
  { destruct (Hsend (n, l)) as (g2 & -> & H2). exact H2. }
  destruct (has_marker p); [|destruct (has_key p)].
  - unfold array_item.
    match goal with
    | |- context [send_back ?y g1] => destruct (Hsend y) as (g2 & -> & H2)
    end.
    destruct r; try destruct (expectYAML _ n l cls_list); cbn; auto.
  - unfold dict_item.
    match goal with
    | |- context [send_back ?y g1] => destruct (Hsend y) as (g2 & -> & H2)
    end.
    destruct r; try destruct (expectYAML _ n l cls_dict); cbn; auto.
  - unfold data_line.
    destruct r; try destruct (expectYAML _ n l cls_yamlValue);
      try destruct (is_multiline_marker (lineContent p));
      try destruct (truthy _); cbn; auto.
Qed.

Lemma loop_queue (fuel : nat) :
  forall g indent r v g',
    length (queue g) <= 1 ->
    parseYAML_loop fuel g indent r = Return v g' ->
    length (queue g') <= 1.
Proof.
  induction fuel as [|fuel IH]; intros g indent r v g' Hq E; [discriminate|].
  cbn [parseYAML_loop] in E.
  pose proof (loop_step_queue g indent r Hq) as Hs.
  destruct (loop_step g indent r) as [[v0 g0|e|]|g0 i0 r0|g0 i0 store];
    try discriminate.
  - injection E as <- <-. exact Hs.
  - eapply IH; eauto.
  - destruct (parseYAML_loop fuel g0 (i0 + 1) PNone) as [child g''|e|] eqn:Ec;
      try discriminate.
    eapply IH; [|exact E]. eapply IH; eauto.
Qed.

(** X10.  During a call of [parseYAML] the push-back queue never holds
    more than one line: at every turn of the loop, in the call and in
    the calls nested in it, at most one line is queued. *)
Theorem queue_holds_one_line (fs : filesystem) (source : py_source)
        (fuel fuel' : nat) (g' : generator) (indent' : nat) (r' : node) :
  reaches (fuel, parseYAML_generator fs source, 0, PNone)
          (fuel', g', indent', r') ->
  length (queue g') <= 1.
Proof.
  assert (H : forall c c', reaches c c' ->
            length (queue (snd (fst (fst c)))) <= 1 ->
            length (queue (snd (fst (fst c')))) <= 1).
  { induction 1 as [c| f s i r s' i' r0 c Hs _ IH
                   | f s i r s' i' store c Hs _ IH
                   | f s i r s' i' store child s'' c Hs Hc _ IH];
      cbn [fst snd] in *; intros Hq; auto.
    - apply IH. pose proof (loop_step_queue s i r Hq) as L.
      now rewrite Hs in L.
    - apply IH. pose proof (loop_step_queue s i r Hq) as L.
      now rewrite Hs in L.
    - apply IH. pose proof (loop_step_queue s i r Hq) as L.
      rewrite Hs in L. eapply loop_queue; eauto. }
  intros Hr. apply (H _ _ Hr). cbn. lia.
Qed.

Lemma queue_holds_one_line_witness :
  length (queue (Generator Suspended [(1, "  ")] 0 ("x:" ++ nl) true 1
                           ["  - 1" ++ nl; "  y: 2" ++ nl])) <= 1.
Proof.
  apply (queue_holds_one_line no_files (SrcStr scenario4) 4 3 _ 1 PNone).
  eapply reaches_child.
  - vm_compute. reflexivity.
  - apply reaches_here.
Defined.

(** ** What the call returns *)

Lemma loop_skips_ignored (up : list (nat * string)) :
  forall fuel g indent r more,
    queue g = [] -> upcoming g = (up ++ more)%list ->
    forallb (fun x => ignored (snd x)) up = true ->
    parseYAML_loop (length up + fuel) g indent r =
    parseYAML_loop fuel (snd (drain (length up) g)) indent r
    /\ queue (snd (drain (length up) g)) = []
    /\ upcoming (snd (drain (length up) g)) = more.
Proof.
  induction up as [|[n l] up IH]; intros fuel g indent r more Hq Hu Hi.
  - cbn. auto.
  - cbn [forallb snd] in Hi. apply andb_prop in Hi. destruct Hi as [Hl Hi].
    destruct (gen_next_draws g (n, l) _ Hq Hu) as (g' & Hn & Hq' & Hu').
    cbn [length]. rewrite drain_snd_S, Hn.
    cbn [snd Nat.add parseYAML_loop]. unfold loop_step. rewrite Hn.
    unfold loop_body. rewrite Hl.
    apply IH; auto.
Qed.

Lemma length_number_from (n : nat) (lines : list string) :
  length (number_from n lines) = length lines.
Proof. revert n. induction lines; intros n; simpl; auto. Qed.

Lemma forallb_number_from (f : string -> bool) (n : nat) (lines : list string) :
  forallb (fun x => f (snd x)) (number_from n lines) = forallb f lines.
Proof.
  revert n. induction lines as [|l ls IH]; intros n; simpl; [reflexivity|].
  now rewrite IH.
Qed.

(** X11.  An input of blank and comment lines alone, the empty input
    among them, gives [None]. *)
Theorem ignored_input_gives_none (fs : filesystem) (source : py_source)
        (fuel : nat) :
  forallb ignored (source_lines fs source) = true ->
  result_of (parseYAML (S (length (source_lines fs source)) + fuel) fs source)
  = Some (inl PNone).
Proof.
  intros H. unfold parseYAML, parseYAML_inner, parseYAML_generator.
  generalize dependent (source_lines fs source). intros lines H.
  assert (El : length lines = length (number_from 0 lines))
    by (now rewrite length_number_from).
  assert (Hi : forallb (fun x => ignored (snd x)) (number_from 0 lines) = true)
    by (now rewrite forallb_number_from).
  assert (Hu0 : upcoming (gen_init lines) = (number_from 0 lines ++ [])%list)
    by (now rewrite app_nil_r).
  destruct (loop_skips_ignored (number_from 0 lines) (S fuel) (gen_init lines)
              0 PNone [] eq_refl Hu0 Hi)
    as (E & Hq & Hu).
  rewrite <- El in *.
  replace (S (length lines) + fuel) with (length lines + S fuel) by lia.
  rewrite E, loop_returns_at_end by assumption. reflexivity.
Qed.

Lemma ignored_input_gives_none_witness :
  result_of (parseYAML 3 no_files (SrcStr ("# only a comment" ++ nl ++ "   " ++ nl)))
  = Some (inl PNone).
Proof.
  apply (ignored_input_gives_none no_files
           (SrcStr ("# only a comment" ++ nl ++ "   " ++ nl)) 0).
  vm_compute. reflexivity.
Defined.

Lemma item_tree_append (items : list node) (child : node) :
  item_tree (PList items) -> item_tree child ->
  item_tree (PList (items ++ [child])).
Proof.
  intros H Hc. inversion H as [|items' Hf]; subst.
  constructor. apply Forall_app. auto.
Qed.

(** One turn of the loop in a nested call (baseline at least 1) that
    holds an item tree: only item lines are taken, and the call goes on
    holding an item tree. *)
Lemma loop_step_nested (g : generator) (indent : nat) (r : node) :
  1 <= indent -> item_tree r ->
  match loop_step g indent r with
  | Finish (Return v _) => v = r
  | Finish _ => True
  | Continue _ indent' r' => 1 <= indent' /\ item_tree r'
  | Recurse _ indent' store =>
      1 <= indent' /\ forall child, item_tree child -> item_tree (store child)
  end.
Proof.
  intros Hi Hr. unfold loop_step.
  destruct (gen_next g) as [[[[n l]|]|e] g1]; [| exact I | destruct e; auto].
  unfold loop_body.
  destruct (ignored l); [auto|].
  destruct (parse_line l) as [p|] eqn:Hp; [|exact I].
  destruct (Nat.ltb (lineIndent p) indent) eqn:Hlt.
  { destruct (send_back (n, l) g1); auto. }
  apply Nat.ltb_ge in Hlt.
  destruct (has_marker p) eqn:Hm.
  2:{ pose proof (no_marker_no_indent l p Hp Hm). lia. }
  unfold array_item.
  destruct r as [|items|entries|value ln]; try (inversion Hr; fail).
  - destruct (send_back _ g1); [exact I|]. split; [lia|].
    intros child Hc. apply (item_tree_append [] child); [|exact Hc].
    constructor. constructor.
  - destruct (expectYAML (PList items) n l cls_list); [exact I|].
    destruct (send_back _ g1); [exact I|]. split; [exact Hi|].
    intros child Hc. now apply item_tree_append.
Qed.

(** A nested call returns an item tree. *)
Lemma nested_call_item_tree (fuel : nat) :
  forall g indent r v g',
    1 <= indent -> item_tree r ->
    parseYAML_loop fuel g indent r = Return v g' -> item_tree v.
Proof.
  induction fuel as [|fuel IH]; intros g indent r v g' Hi Hr E; [discriminate|].
  cbn [parseYAML_loop] in E.
  pose proof (loop_step_nested g indent r Hi Hr) as Hs.
  destruct (loop_step g indent r) as [[v0 g0|e|]|g0 i0 r0|g0 i0 store];
    try discriminate.
  - injection E as <- <-. now subst v0.
  - destruct Hs. eapply IH; eauto.
  - destruct Hs as [Hi0 Hst].
    destruct (parseYAML_loop fuel g0 (i0 + 1) PNone) as [child g''|e|] eqn:Ec;
      try discriminate.
    eapply IH; [exact Hi0| |exact E]. apply Hst.
    eapply (IH g0 (i0 + 1) PNone); [lia|constructor|exact Ec].
Qed.

Lemma dict_set_keys (d : list (string * node)) (key : string) (v : node) :
  NoDup (map fst d) ->
  Forall (fun kv => item_tree (snd kv)) d -> item_tree v ->
  NoDup (map fst (dict_set d key v)) /\
  Forall (fun kv => item_tree (snd kv)) (dict_set d key v) /\
  (forall k, In k (map fst (dict_set d key v)) -> k = key \/ In k (map fst d)).
Proof.
  induction d as [|[k w] d IH]; intros Hnd Hf Hv.
  - cbn. repeat split.
    + constructor; [intros []|constructor].
    + constructor; auto.
    + intros k [H|[]]; auto.
  - cbn [map fst] in Hnd. inversion Hnd as [|? ? Hnotin Hnd']; subst.
    inversion Hf as [|? ? Hw Hf']; subst.
    cbn [dict_set]. destruct (String.eqb k key) eqn:E.
    + apply String.eqb_eq in E. subst k. cbn [map fst]. repeat split.
      * exact Hnd.
      * constructor; auto.
      * intros k Hk. right. exact Hk.
    + destruct (IH Hnd' Hf' Hv) as (Hnd2 & Hf2 & Hin).
      cbn [map fst]. repeat split.
      * constructor; [|exact Hnd2]. intros Hk. apply Hin in Hk.
        destruct Hk as [->|Hk]; [|contradiction].
        rewrite String.eqb_refl in E. discriminate.
      * constructor; auto.
      * intros k0 [->|Hk]; [right; left; reflexivity|].
        apply Hin in Hk. destruct Hk; [left|right; right]; auto.
Qed.

(** One turn of the loop on a value of a shape [parseYAML] can return. *)
Lemma loop_step_shape (g : generator) (indent : nat) (r : node) :
  result_shape r ->
  match loop_step g indent r with
  | Finish (Return v _) => v = r
  | Finish _ => True
  | Continue _ _ r' => result_shape r'
  | Recurse _ _ store =>
      forall child, item_tree child -> result_shape (store child)
  end.
Proof.
  intros Hr. unfold loop_step.
  destruct (gen_next g) as [[[[n l]|]|e] g1]; [| exact I | destruct e; auto].
  unfold loop_body.
  destruct (ignored l); [auto|].
  destruct (parse_line l) as [p|] eqn:Hp; [|exact I].
  destruct (Nat.ltb (lineIndent p) indent).
  { destruct (send_back (n, l) g1); auto. }
  destruct (has_marker p); [|destruct (has_key p)].
  - unfold array_item.
    destruct r as [|items|entries|value ln].
    + destruct (send_back _ g1); [exact I|].
      intros child Hc. constructor. constructor; auto.
    + destruct (expectYAML (PList items) n l cls_list); [exact I|].
      destruct (send_back _ g1); [exact I|].
      intros child Hc. inversion Hr; subst. constructor.
      apply Forall_app. auto.
    + destruct (expectYAML _ n l cls_list) eqn:X; [exact I|].
      apply expectYAML_class in X. discriminate.
    + destruct (expectYAML _ n l cls_list) eqn:X; [exact I|].
      apply expectYAML_class in X. discriminate.
  - unfold dict_item.
    destruct r as [|items|entries|value ln].
    + destruct (send_back _ g1); [exact I|].
      intros child Hc. cbn. constructor.
      * constructor; [intros []|constructor].
      * constructor; auto.
    + destruct (expectYAML _ n l cls_dict) eqn:X; [exact I|].
      apply expectYAML_class in X. discriminate.
    + destruct (expectYAML (PDict entries) n l cls_dict); [exact I|].
      destruct (send_back _ g1); [exact I|].
      intros child Hc. inversion Hr; subst.
      destruct (dict_set_keys entries (lineKey p) child) as (Hk1 & Hk2 & _);
        auto.
      now constructor.
    + destruct (expectYAML _ n l cls_dict) eqn:X; [exact I|].
      apply expectYAML_class in X. discriminate.
  - unfold data_line.
    destruct r as [|items|entries|value ln];
      try (destruct (expectYAML _ n l cls_yamlValue) eqn:X; [exact I|];
           apply expectYAML_class in X; try discriminate X).
    + destruct (is_multiline_marker (lineContent p)); cbn; constructor.
    + destruct (truthy _); cbn; constructor.
Qed.

(** X12.  Whatever [parseYAML] returns is [None], a scalar, a sequence
    or a mapping with distinct keys, and below that top level it holds
    sequences and [None] only: no element of a sequence and no value of
    a mapping is a scalar or a mapping. *)
Theorem result_is_flat (fs : filesystem) (source : py_source) (fuel : nat)
        (v : node) (g' : generator) :
  parseYAML fuel fs source = Return v g' -> result_shape v.
Proof.
  unfold parseYAML, parseYAML_inner.
  assert (H : forall f g indent r v g',
             result_shape r ->
             parseYAML_loop f g indent r = Return v g' -> result_shape v).
  { induction f as [|f IH]; intros g indent r v0 g0 Hr E; [discriminate|].
    cbn [parseYAML_loop] in E.
    pose proof (loop_step_shape g indent r Hr) as Hs.
    destruct (loop_step g indent r) as [[v1 g1|e|]|g1 i1 r1|g1 i1 store];
      try discriminate.
    - injection E as <- <-. now subst v1.
    - eapply IH; eauto.
    - destruct (parseYAML_loop f g1 (i1 + 1) PNone) as [child g''|e|] eqn:Ec;
        try discriminate.
      eapply IH; [|exact E]. apply Hs.
      eapply (nested_call_item_tree f g1 (i1 + 1) PNone);
        [lia|constructor|exact Ec]. }
  apply H. constructor.
Qed.

Lemma result_is_flat_witness :
  result_shape (PDict [("a", PNone); ("b", PList [PNone])]).
Proof.
  apply (result_is_flat no_files
           (SrcStr ("a:" ++ nl ++ "b:" ++ nl ++ "  - " ++ nl)) 6 _
           (Generator Done [] 2 ("  - " ++ nl) true 3 [])).
  vm_compute. reflexivity.
Defined.

Lemma lstrip_spaces (n : nat) (s : string) : lstrip (spaces n ++ s) = lstrip s.
Proof. induction n; simpl; auto. Qed.

(** X13.  The top-level call returns at the first line that is less
    indented than its block, and nothing after it is read: an indented
    item with no payload followed by any such line gives the one-item
    sequence, whatever the rest of the input is. *)
Theorem rest_of_input_dropped (fs : filesystem) (n k : nat) (w l2 : string)
        (p2 : parsedLine) (rest : list string) (fuel : nat) :
  is_line_end w = true ->
  ignored l2 = false -> parse_line l2 = Some p2 -> lineIndent p2 < S n ->
  result_of
    (parseYAML (3 + fuel) fs
       (SrcLines ((spaces (S n) ++ String "-" (spaces (S k) ++ w))
                    :: l2 :: rest)))
  = Some (inl (PList [PNone])).
Proof.
  intros Hw Hi2 Hp2 Hlt.
  set (l1 := spaces (S n) ++ String "-" (spaces (S k) ++ w)).
  assert (Hi1 : ignored l1 = false).
  { rewrite ignored_by_first_nonspace. unfold first_nonspace, l1.
    rewrite lstrip_spaces. reflexivity. }
  assert (Hp1 : parse_line l1 =
                Some (ParsedLine (S n) (Some (String "-" (spaces (S k))))
                                 EmptyString EmptyString EmptyString)).
  { apply (item_line_parsed (S n) k EmptyString w); auto. }
  assert (Hsyn : forall m, ignored (spaces m ++ EmptyString) = true).
  { intros m. rewrite ignored_by_first_nonspace. unfold first_nonspace.
    rewrite lstrip_spaces. reflexivity. }
  set (syn := spaces (S n + String.length (String "-" (spaces (S k))))
              ++ EmptyString).
  set (g1 := Generator Suspended [(1, syn)] 0 l1 true 1 (l2 :: rest)).
  set (g1' := Generator Suspended [] 0 l1 true 1 (l2 :: rest)).
  set (g2 := Generator Suspended [(2, l2)] 1 l2 true 2 rest).
  assert (S1 : loop_step (gen_init (l1 :: l2 :: rest)) 0 PNone =
               Recurse g1 (S n) (fun child => PList ([] ++ [child])%list)).
  { unfold loop_step.
    change (gen_next (gen_init (l1 :: l2 :: rest))) with (Yielded (Some (1, l1)), g1').
    unfold loop_body. rewrite Hi1, Hp1. reflexivity. }
  assert (S2 : loop_step g1 (S n + 1) PNone = Continue g1' (S n + 1) PNone).
  { unfold loop_step.
    change (gen_next g1) with (Yielded (Some (1, syn)), g1').
    unfold loop_body, syn. now rewrite Hsyn. }
  assert (S3 : loop_step g1' (S n + 1) PNone = Finish (Return PNone g2)).
  { unfold loop_step.
    change (gen_next g1')
      with (Yielded (Some (2, l2)), Generator Suspended [] 1 l2 true 2 rest).
    unfold loop_body. rewrite Hi2, Hp2.
    assert (Hl : Nat.ltb (lineIndent p2) (S n + 1) = true)
      by (apply Nat.ltb_lt; lia).
    rewrite Hl. reflexivity. }
  assert (S4 : loop_step g2 (S n) (PList [PNone]) =
               Finish (Return (PList [PNone]) g2)).
  { unfold loop_step.
    change (gen_next g2)
      with (Yielded (Some (2, l2)), Generator Suspended [] 1 l2 true 2 rest).
    unfold loop_body. rewrite Hi2, Hp2.
    assert (Hl : Nat.ltb (lineIndent p2) (S n) = true)
      by (apply Nat.ltb_lt; lia).
    rewrite Hl. reflexivity. }
  assert (E : parseYAML 3 fs (SrcLines (l1 :: l2 :: rest)) =
              Return (PList [PNone]) g2).
  { unfold parseYAML, parseYAML_inner, parseYAML_generator, source_lines.
    change (parseYAML_loop 3 (gen_init (l1 :: l2 :: rest)) 0 PNone)
      with (match loop_step (gen_init (l1 :: l2 :: rest)) 0 PNone with
            | Finish o => o
            | Continue s i r => parseYAML_loop 2 s i r
            | Recurse s i store =>
                match parseYAML_loop 2 s (i + 1) PNone with
                | Return child s'' => parseYAML_loop 2 s'' i (store child)
                | Raise e => Raise e
                | OutOfFuel => OutOfFuel
                end
            end).
    rewrite S1.
    assert (C : parseYAML_loop 2 g1 (S n + 1) PNone = Return PNone g2).
    { cbn [parseYAML_loop]. now rewrite S2, S3. }
    rewrite C. cbn [parseYAML_loop app]. now rewrite S4. }
  rewrite (parseYAML_mono 3 _ _ _ E) by (try discriminate; lia).
  reflexivity.
Qed.

Lemma rest_of_input_dropped_witness :
  result_of
    (parseYAML 3 no_files
       (SrcLines ["  - " ++ nl; "key: value" ++ nl; "more: text" ++ nl]))
  = Some (inl (PList [PNone])).
Proof.
  apply (rest_of_input_dropped no_files 1 0 nl ("key: value" ++ nl)
           (ParsedLine 0 None "key" ": " "value") ["more: text" ++ nl] 0).
  - reflexivity.
  - vm_compute. reflexivity.
  - vm_compute. reflexivity.
  - simpl. lia.
Defined.

(** ** A mapping of keys without values *)

Lemma next_seq (g : generator) (x : nat * string) (tl : list (nat * string)) :
  line_seq g = x :: tl ->
  exists g', gen_next g = (Yielded (Some x), g') /\ status g' = Suspended /\
             line_seq g' = tl.
Proof.
  unfold line_seq. intros H.
  destruct (gen_next_cases g)
    as [(bl & y & g' & Hq & Hn & Hs & Hq' & Hu')
       |[(y & up & g' & Hq & Hu & Hn & Hs & Hq' & Hu')
        |(g' & Hq & Hu & Hn & Hq' & Hu')]].
  - rewrite Hq, rev_app_distr in H. cbn in H. injection H as -> H.
    exists g'. rewrite Hq', Hu'. auto.
  - rewrite Hq, Hu in H. cbn in H. injection H as -> H.
    exists g'. rewrite Hq', Hu'. auto.
  - rewrite Hq, Hu in H. discriminate.
Qed.

Lemma next_seq_nil (g : generator) :
  line_seq g = [] ->
  exists g', gen_next g = (Raised StopIteration, g') /\ line_seq g' = [].
Proof.
  unfold line_seq. intros H. apply app_eq_nil in H. destruct H as [Hq Hu].
  assert (Hq0 : queue g = []).
  { destruct (queue g) as [|a q]; [reflexivity|].
    cbn in Hq. apply app_eq_nil in Hq. destruct Hq. discriminate. }
  exists (snd (gen_next g)). split; [now apply gen_next_stops|].
  destruct (gen_next_queue_none g Hq0) as (_ & H2 & H3).
  rewrite H2, H3, Hu. reflexivity.
Qed.

Lemma send_seq (g : generator) (x : nat * string) :
  status g = Suspended ->
  exists g', send_back x g = inr g' /\ line_seq g' = x :: line_seq g.
Proof.
  intros H. destruct (send_back_suspended x g H) as (g' & E & _ & Hq & Hu).
  exists g'. split; [exact E|]. unfold line_seq.
  rewrite Hq, Hu, rev_app_distr. reflexivity.
Qed.

Lemma valid_key_inv (key : string) :
  valid_key key = true ->
  nonempty key = true /\ all_chars is_key_char key = true.
Proof. unfold valid_key. intros H. apply andb_prop in H. exact H. Qed.

Lemma key_line_parsed (key : string) :
  valid_key key = true ->
  ignored (key_line key) = false /\
  parse_line (key_line key) =
  Some (ParsedLine 0 None key ":" EmptyString).
Proof.
  intros H. apply valid_key_inv in H. destruct H as [Hne Hall]. split.
  - rewrite ignored_by_first_nonspace. unfold first_nonspace, key_line.
    destruct key as [|c key]; [discriminate|].
    cbn [all_chars] in Hall. apply andb_prop in Hall. destruct Hall as [Hc _].
    cbn [append lstrip].
    destruct (key_char_facts c Hc) as (_ & _ & Hs & _). rewrite Hs.
    destruct c as [[] [] [] [] [] [] [] []]; try reflexivity; discriminate Hc.
  - apply (keyed_line_parsed key 0 EmptyString nl); auto.
Qed.

(** The nested call for a key without value: it drops the blank line
    pushed back for it, and returns [None] at the next key line or at
    the end of the input, leaving that line to its caller. *)
Lemma bare_key_child (fuel : nat) (g : generator) (n : nat) (syn : string)
      (tl : list (nat * string)) :
  line_seq g = (n, syn) :: tl -> ignored syn = true ->
  match tl with
  | [] => True
  | x :: _ => exists key, snd x = key_line key /\ valid_key key = true
  end ->
  exists g', parseYAML_loop (2 + fuel) g 1 PNone = Return PNone g' /\
             line_seq g' = tl.
Proof.
  intros Hseq Hsyn Htl.
  destruct (next_seq g _ _ Hseq) as (g1 & Hn & Hs & Hseq1).
  cbn [Nat.add parseYAML_loop]. unfold loop_step at 1. rewrite Hn.
  unfold loop_body at 1. rewrite Hsyn.
  destruct tl as [|[n' l'] tl'].
  - destruct (next_seq_nil g1 Hseq1) as (g2 & Hn2 & Hseq2).
    exists g2. unfold loop_step. rewrite Hn2. auto.
  - destruct Htl as (key & Hl & Hv). cbn [snd] in Hl. subst l'.
    destruct (next_seq g1 _ _ Hseq1) as (g2 & Hn2 & Hs2 & Hseq2).
    destruct (send_seq g2 (n', key_line key) Hs2) as (g3 & E & Hseq3).
    destruct (key_line_parsed key Hv) as [Hi Hp].
    exists g3. unfold loop_step. rewrite Hn2. unfold loop_body.
    rewrite Hi, Hp. cbn [lineIndent Nat.ltb Nat.leb]. rewrite E.
    split; [reflexivity|]. now rewrite Hseq3, Hseq2.
Qed.

Lemma bare_keys_loop (keys : list string) :
  forall numbered g r fuel,
    map snd numbered = map key_line keys ->
    forallb valid_key keys = true ->
    line_seq g = numbered ->
    (r = PNone \/ exists d, r = PDict d) ->
    exists g',
      parseYAML_loop (length keys + 2 + fuel) g 0 r =
      Return (fold_left add_bare_key keys r) g'.
Proof.
  induction keys as [|key keys IH]; intros numbered g r fuel Hm Hv Hseq Hr.
  - destruct numbered; [|discriminate].
    destruct (next_seq_nil g Hseq) as (g' & Hn & _).
    exists g'. cbn [length Nat.add parseYAML_loop fold_left].
    unfold loop_step. now rewrite Hn.
  - destruct numbered as [|[n l] numbered]; [discriminate|].
    cbn [map snd] in Hm. injection Hm as -> Hm.
    cbn [forallb] in Hv. apply andb_prop in Hv. destruct Hv as [Hk Hv].
    destruct (key_line_parsed key Hk) as [Hi Hp].
    destruct (next_seq g _ _ Hseq) as (g1 & Hn & Hs & Hseq1).
    set (syn := spaces (0 + String.length key + String.length ":") ++ EmptyString).
    destruct (send_seq g1 (n, syn) Hs) as (g2 & E & Hseq2).
    assert (Hsyn : ignored syn = true).
    { rewrite ignored_by_first_nonspace. unfold first_nonspace, syn.
      rewrite lstrip_spaces. reflexivity. }
    assert (Htl : match numbered with
                  | [] => True
                  | x :: _ => exists key, snd x = key_line key /\
                                          valid_key key = true
                  end).
    { destruct numbered as [|x numbered]; [exact I|].
      destruct keys as [|key' keys]; [discriminate|].
      cbn [map] in Hm. injection Hm as Hx _.
      cbn [forallb] in Hv. apply andb_prop in Hv. destruct Hv as [Hk' _].
      eauto. }
    destruct (bare_key_child (length keys + fuel) g2 n syn numbered)
      as (g3 & Ec & Hseq3); [now rewrite Hseq2, Hseq1 | exact Hsyn | exact Htl |].
    assert (Hstep : loop_step g 0 r =
                    Recurse g2 0
                      (fun child =>
                         PDict (dict_set (match r with PDict d => d | _ => [] end)
                                         key child))).
    { unfold loop_step. rewrite Hn. unfold loop_body. rewrite Hi, Hp.
      cbn [lineIndent Nat.ltb Nat.leb has_marker lineItemMarker].
      unfold has_key. cbn [lineKey].
      destruct (valid_key_inv key Hk) as [Hne _]. rewrite Hne.
      unfold dict_item. cbn [lineIndent lineKey lineKeyExtra lineContent].
      fold syn. rewrite E.
      destruct Hr as [-> | [d ->]]; reflexivity. }
    destruct (IH numbered g3 (add_bare_key r key) fuel Hm Hv Hseq3)
      as (g' & Ek); [right; unfold add_bare_key; eauto|].
    exists g'.
    replace (length (key :: keys) + 2 + fuel)
      with (S (length keys + 2 + fuel)) by (cbn; lia).
    cbn [parseYAML_loop fold_left]. rewrite Hstep.
    replace (length keys + 2 + fuel) with (2 + (length keys + fuel)) at 1 by lia.
    cbn [Nat.add] in Ec |- *. rewrite Ec. exact Ek.
Qed.

(** X14.  A document of keys without values, each on its own line at
    column 0, gives the mapping of these keys to [None], in the order
    of their first occurrence. *)
Theorem bare_keys_mapping (fs : filesystem) (keys : list string) (fuel : nat) :
  forallb valid_key keys = true ->
  result_of (parseYAML (length keys + 2 + fuel) fs
                       (SrcLines (map key_line keys)))
  = Some (inl (fold_left add_bare_key keys PNone)).
Proof.
  intros Hv. unfold parseYAML, parseYAML_inner, parseYAML_generator.
  cbn [source_lines].
  destruct (bare_keys_loop keys (number_from 0 (map key_line keys))
              (gen_init (map key_line keys)) PNone fuel) as (g' & E); auto.
  - apply map_snd_number_from.
  - rewrite E. reflexivity.
Qed.

Lemma bare_keys_mapping_witness :
  result_of (parseYAML 5 no_files
               (SrcLines ["a:" ++ nl; "b.c:" ++ nl; "a:" ++ nl]))
  = Some (inl (PDict [("a", PNone); ("b.c", PNone)])).
Proof.
  apply (bare_keys_mapping no_files ["a"; "b.c"; "a"] 0). reflexivity.
Defined.

(** ** Kind commitment below the top level *)

(** An indented item with no payload, then a line that is less indented
    as the code counts it: the nested call and then the top call hand
    the line back, and the call returns the one-item list. *)
Lemma item_then_shallow (fs : filesystem) (n k : nat) (w l2 : string)
      (p2 : parsedLine) (rest : list string) (fuel : nat) :
  is_line_end w = true ->
  ignored l2 = false -> parse_line l2 = Some p2 -> lineIndent p2 < S n ->
  result_of
    (parseYAML (3 + fuel) fs
       (SrcLines ((spaces (S n) ++ String "-" (spaces (S k) ++ w))
                    :: l2 :: rest)))
  = Some (inl (PList [PNone])).
Proof.
  intros Hw Hi2 Hp2 Hlt.
  set (l1 := spaces (S n) ++ String "-" (spaces (S k) ++ w)).
  assert (Hi1 : ignored l1 = false).
  { rewrite ignored_by_first_nonspace. unfold first_nonspace, l1.
    rewrite lstrip_spaces. reflexivity. }
  assert (Hp1 : parse_line l1 =
                Some (ParsedLine (S n) (Some (String "-" (spaces (S k))))
                                 EmptyString EmptyString EmptyString)).
  { apply (item_line_parsed (S n) k EmptyString w); auto. }
  assert (Hsyn : forall m, ignored (spaces m ++ EmptyString) = true).
  { intros m. rewrite ignored_by_first_nonspace. unfold first_nonspace.
    rewrite lstrip_spaces. reflexivity. }
  set (syn := spaces (S n + String.length (String "-" (spaces (S k))))
              ++ EmptyString).
  set (g1 := Generator Suspended [(1, syn)] 0 l1 true 1 (l2 :: rest)).
  set (g1' := Generator Suspended [] 0 l1 true 1 (l2 :: rest)).
  set (g2 := Generator Suspended [(2, l2)] 1 l2 true 2 rest).
  assert (S1 : loop_step (gen_init (l1 :: l2 :: rest)) 0 PNone =
               Recurse g1 (S n) (fun child => PList ([] ++ [child])%list)).
  { unfold loop_step.
    change (gen_next (gen_init (l1 :: l2 :: rest))) with (Yielded (Some (1, l1)), g1').
    unfold loop_body. rewrite Hi1, Hp1. reflexivity. }
  assert (S2 : loop_step g1 (S n + 1) PNone = Continue g1' (S n + 1) PNone).
  { unfold loop_step.
    change (gen_next g1) with (Yielded (Some (1, syn)), g1').
    unfold loop_body, syn. now rewrite Hsyn. }
  assert (S3 : loop_step g1' (S n + 1) PNone = Finish (Return PNone g2)).
  { unfold loop_step.
    change (gen_next g1')
      with (Yielded (Some (2, l2)), Generator Suspended [] 1 l2 true 2 rest).
    unfold loop_body. rewrite Hi2, Hp2.
    assert (Hl : Nat.ltb (lineIndent p2) (S n + 1) = true)
      by (apply Nat.ltb_lt; lia).
    rewrite Hl. reflexivity. }
  assert (S4 : loop_step g2 (S n) (PList [PNone]) =
               Finish (Return (PList [PNone]) g2)).
  { unfold loop_step.
    change (gen_next g2)
      with (Yielded (Some (2, l2)), Generator Suspended [] 1 l2 true 2 rest).
    unfold loop_body. rewrite Hi2, Hp2.
    assert (Hl : Nat.ltb (lineIndent p2) (S n) = true)
      by (apply Nat.ltb_lt; lia).
    rewrite Hl. reflexivity. }
  assert (E : parseYAML 3 fs (SrcLines (l1 :: l2 :: rest)) =
              Return (PList [PNone]) g2).
  { unfold parseYAML, parseYAML_inner, parseYAML_generator, source_lines.
    change (parseYAML_loop 3 (gen_init (l1 :: l2 :: rest)) 0 PNone)
      with (match loop_step (gen_init (l1 :: l2 :: rest)) 0 PNone with
            | Finish o => o
            | Continue s i r => parseYAML_loop 2 s i r
            | Recurse s i store =>
                match parseYAML_loop 2 s (i + 1) PNone with
                | Return child s'' => parseYAML_loop 2 s'' i (store child)
                | Raise e => Raise e
                | OutOfFuel => OutOfFuel
                end
            end).
    rewrite S1.
    assert (C : parseYAML_loop 2 g1 (S n + 1) PNone = Return PNone g2).
    { cbn [parseYAML_loop]. now rewrite S2, S3. }
    rewrite C. cbn [parseYAML_loop app]. now rewrite S4. }
  rewrite (parseYAML_mono 3 _ _ _ E) by (try discriminate; lia).
  reflexivity.
Qed.

(** C3.  The code does not keep the commitment below the top level.  A
    block that has committed to a sequence at a baseline of one or more
    spaces and then meets a line with no item marker, a key line or a
    content line with whatever leading spaces, does not raise: such a
    line counts as indent 0, so the block ends and the call returns the
    sequence.  The text of scenario 4 does raise, but on the payload of
    its item, pushed back and met by the top block, before the key line
    is read. *)
Theorem nested_mismatch_returns :
  (forall (fs : filesystem) (n k : nat) (w l2 : string) (p2 : parsedLine)
          (rest : list string) (fuel : nat),
      is_line_end w = true ->
      ignored l2 = false -> parse_line l2 = Some p2 ->
      has_marker p2 = false ->
      result_of
        (parseYAML (3 + fuel) fs
           (SrcLines ((spaces (S n) ++ String "-" (spaces (S k) ++ w))
                        :: l2 :: rest)))
      = Some (inl (PList [PNone])))
  /\ (forall fuel,
        parseYAML (4 + fuel) no_files (SrcStr scenario4) =
        Raise (Exception
          "Bad YAML, got a type item while working on a dict on line 2:     1")).
Proof.
  split.
  - intros fs n k w l2 p2 rest fuel Hw Hi2 Hp2 Hm.
    apply (item_then_shallow fs n k w l2 p2); auto.
    rewrite (no_marker_no_indent l2 p2 Hp2 Hm). lia.
  - intros fuel.
    apply parseYAML_mono with (fuel := 4); [|discriminate|lia].
    vm_compute. reflexivity.
Qed.

(** A sequence item two spaces deep, then a key two spaces deep. *)
Lemma nested_mismatch_returns_witness :
  result_of (parseYAML 3 no_files (SrcLines ["  - " ++ nl; "  y: 2" ++ nl]))
  = Some (inl (PList [PNone])).
Proof.
  apply (proj1 nested_mismatch_returns no_files 1 0 nl ("  y: 2" ++ nl)
           (ParsedLine 0 None EmptyString EmptyString "y: 2") [] 0).
  - reflexivity.
  - vm_compute. reflexivity.
  - vm_compute. reflexivity.
  - reflexivity.
Defined.

(** ** The literal block of scenario 3 *)

(** C6.  On the text of scenario 3 the introducer does not commit a
    scalar for key [k]: pushed back as three spaces and [|], it counts as
    indent 0, the nested call hands it back, and the top block, a
    [dict] by then, rejects it as a content line. *)
Theorem scenario3_raises (fuel : nat) :
  parseYAML (2 + fuel) no_files (SrcStr scenario3) =
  Raise (Exception
    "Bad YAML, got a type item while working on a dict on line 1:    |").
Proof.
  apply parseYAML_mono with (fuel := 2); [|discriminate|lia].
  vm_compute. reflexivity.
Qed.

(** ** Blank and comment lines leave the tree as it is *)

(** The loop keeps the shapes [parseYAML] can return. *)
Lemma loop_result_shape (fuel : nat) :
  forall g indent r v g',
    result_shape r ->
    parseYAML_loop fuel g indent r = Return v g' -> result_shape v.
Proof.
  induction fuel as [|f IH]; intros g indent r v0 g0 Hr E; [discriminate|].
  cbn [parseYAML_loop] in E.
  pose proof (loop_step_shape g indent r Hr) as Hs.
  destruct (loop_step g indent r) as [[v1 g1|e|]|g1 i1 r1|g1 i1 store];
    try discriminate.
  - injection E as <- <-. now subst v1.
  - eapply IH; eauto.
  - destruct (parseYAML_loop f g1 (i1 + 1) PNone) as [child g''|e|] eqn:Ec;
      try discriminate.
    eapply IH; [|exact E]. apply Hs.
    eapply (nested_call_item_tree f g1 (i1 + 1) PNone);
      [lia|constructor|exact Ec].
Qed.

(** An item tree holds no line number. *)
Lemma item_tree_forget : forall v, item_tree v -> forget_lines v = v.
Proof.
  fix IH 1. intros [|items|entries|value ln] H; try (inversion H; fail).
  - reflexivity.
  - inversion H as [|? Hf]; subst. cbn [forget_lines]. f_equal.
    clear H. induction items as [|x xs IHxs]; [reflexivity|].
    inversion Hf; subst. cbn [map]. f_equal; auto.
Qed.

(** Below its top level a returned value holds no line number. *)
Lemma result_shape_forget (v : node) :
  result_shape v -> class_of v <> cls_yamlValue -> forget_lines v = v.
Proof.
  intros [|value ln|items Hf|entries _ Hf] Hc.
  - reflexivity.
  - now contradiction Hc.
  - cbn [forget_lines]. f_equal.
    induction Hf as [|x xs Hx _ IH]; [reflexivity|].
    cbn [map]. now rewrite item_tree_forget, IH.
  - cbn [forget_lines]. f_equal.
    induction Hf as [|[k x] xs Hx _ IH]; [reflexivity|].
    cbn [map fst snd] in *. now rewrite item_tree_forget, IH.
Qed.

(** Returned values that agree up to line numbers are the same tree. *)
Lemma forget_same_tree (v v' : node) :
  result_shape v -> result_shape v' ->
  forget_lines v = forget_lines v' -> same_tree v v'.
Proof.
  intros Hv Hv' E. pose proof (forget_class v v' E) as Hc.
  destruct v as [|items|entries|value ln].
  - destruct v'; try discriminate. reflexivity.
  - unfold same_tree.
    rewrite <- (result_shape_forget (PList items) Hv) by discriminate.
    rewrite E. symmetry. apply result_shape_forget; [exact Hv'|].
    rewrite <- Hc. discriminate.
  - unfold same_tree.
    rewrite <- (result_shape_forget (PDict entries) Hv) by discriminate.
    rewrite E. symmetry. apply result_shape_forget; [exact Hv'|].
    rewrite <- Hc. discriminate.
  - destruct v' as [| | |value' ln']; try discriminate.
    cbn in E. injection E as <-. cbn. eauto.
Qed.

(** C7.  Blank lines and comment lines put into the lines of the input,
    anywhere and in any number, leave the parsed tree as it is: when the
    call on either input returns, so does the call on the other, and
    with the same value.  For [None], a [list] and a [dict] the two
    values are equal; for a [yamlValue] they hold the same text, which
    is what [==] compares.  The call on the longer input needs the
    turns of the loop that drop the added lines, and it ends with the
    fuel of the other one whenever that one ends. *)
Theorem ignored_lines_leave_tree (fs : filesystem)
        (source1 source2 : py_source) (fuel : nat) :
  with_ignored (source_lines fs source1) (source_lines fs source2) ->
  (forall v g1,
      parseYAML fuel fs source1 = Return v g1 ->
      exists fuel' v' g2,
        parseYAML fuel' fs source2 = Return v' g2 /\ same_tree v v')
  /\ (forall v' g2,
         parseYAML fuel fs source2 = Return v' g2 ->
         exists v g1,
           parseYAML fuel fs source1 = Return v g1 /\ same_tree v v').
Proof.
  intros H. apply same_source_init in H.
  unfold parseYAML, parseYAML_inner, parseYAML_generator. split.
  - intros v g1 E.
    destruct (sim_forth fuel _ _ 0 PNone PNone H eq_refl) as [f Hf];
      [rewrite E; discriminate|].
    rewrite E in Hf.
    destruct (parseYAML_loop f _ 0 PNone) as [v' g2|e|] eqn:E2;
      cbn in Hf; try contradiction.
    destruct Hf as [Hv _]. exists f, v', g2. split; [exact E2|].
    apply forget_same_tree; [| |exact Hv].
    + apply (loop_result_shape _ _ _ _ _ _ shape_none E).
    + apply (loop_result_shape _ _ _ _ _ _ shape_none E2).
  - intros v' g2 E.
    pose proof (sim_back fuel _ _ 0 PNone PNone H eq_refl) as Hb.
    rewrite E in Hb. specialize (Hb ltac:(discriminate)).
    destruct (parseYAML_loop fuel (gen_init (source_lines fs source1)) 0 PNone)
      as [v g1|e|] eqn:E1;
      cbn in Hb; try contradiction.
    destruct Hb as [Hv _]. exists v, g1. split; [reflexivity|].
    apply forget_same_tree; [| |exact Hv].
    + apply (loop_result_shape _ _ _ _ _ _ shape_none E1).
    + apply (loop_result_shape _ _ _ _ _ _ shape_none E).
Qed.

(** A comment before the first key, a blank line between the two keys
    and an indented comment after the item of the second. *)
Lemma ignored_lines_leave_tree_witness :
  (exists fuel' v' g2,
      parseYAML fuel' no_files
        (SrcStr ("# c" ++ nl ++ "a:" ++ nl ++ nl ++ "b:" ++ nl ++ "  - " ++ nl
                       ++ "    # d" ++ nl))
      = Return v' g2
      /\ same_tree (PDict [("a", PNone); ("b", PList [PNone])]) v')
  /\ (exists v g1,
         parseYAML 10 no_files
           (SrcStr ("a:" ++ nl ++ "b:" ++ nl ++ "  - " ++ nl))
         = Return v g1
         /\ same_tree v (PDict [("a", PNone); ("b", PList [PNone])])).
Proof.
  destruct (ignored_lines_leave_tree no_files
              (SrcStr ("a:" ++ nl ++ "b:" ++ nl ++ "  - " ++ nl))
              (SrcStr ("# c" ++ nl ++ "a:" ++ nl ++ nl ++ "b:" ++ nl
                             ++ "  - " ++ nl ++ "    # d" ++ nl))
              10)
    as [Hforth Hback].
  - change (with_ignored ["a:" ++ nl; "b:" ++ nl; "  - " ++ nl]
              ["# c" ++ nl; "a:" ++ nl; nl; "b:" ++ nl; "  - " ++ nl;
               "    # d" ++ nl]).
    apply wi_more; [vm_compute; reflexivity|].
    apply wi_same.
    apply wi_more; [vm_compute; reflexivity|].
    apply wi_same. apply wi_same.
    apply wi_more; [vm_compute; reflexivity|].
    apply wi_nil.
  - split.
    + apply (Hforth (PDict [("a", PNone); ("b", PList [PNone])])
               (Generator Done [] 2 ("  - " ++ nl) true 3 [])).
      vm_compute. reflexivity.
    + apply (Hback (PDict [("a", PNone); ("b", PList [PNone])])
               (Generator Done [] 5 ("    # d" ++ nl) true 6 [])).
      vm_compute. reflexivity.
Defined.

(** X15.  Blank and comment lines put into the lines of the input
    leave an error as it is but for its line number: when the call on
    either input raises, so does the call on the other, with the
    message of [expectYAML] for a block of the same class and the same
    line text, or the [Unparseable] message for the same line text. *)
Theorem ignored_lines_keep_errors (fs : filesystem)
      (source1 source2 : py_source) (fuel : nat) :
  with_ignored (source_lines fs source1) (source_lines fs source2) ->
  (forall e,
      parseYAML fuel fs source1 = Raise e ->
      exists fuel' e', parseYAML fuel' fs source2 = Raise e' /\ same_exn e e')
  /\ (forall e',
         parseYAML fuel fs source2 = Raise e' ->
         exists e, parseYAML fuel fs source1 = Raise e /\ same_exn e e').
Proof.
  intros H. apply same_source_init in H.
  unfold parseYAML, parseYAML_inner, parseYAML_generator. split.
  - intros e E.
    destruct (sim_forth fuel _ _ 0 PNone PNone H eq_refl) as [f Hf];
      [rewrite E; discriminate|].
    rewrite E in Hf.
    destruct (parseYAML_loop f _ 0 PNone) as [v' g2|e'|] eqn:E2;
      cbn in Hf; try contradiction.
    exists f, e'. split; [exact E2|exact Hf].
  - intros e' E.
    pose proof (sim_back fuel _ _ 0 PNone PNone H eq_refl) as Hb.
    rewrite E in Hb. specialize (Hb ltac:(discriminate)).
    destruct (parseYAML_loop fuel (gen_init (source_lines fs source1)) 0 PNone)
      as [v g1|e|] eqn:E1;
      cbn in Hb; try contradiction.
    exists e. auto.
Qed.

(** A comment put before the text of scenario 1. *)
Lemma ignored_lines_keep_errors_witness :
  (exists fuel' e',
      parseYAML fuel' no_files (SrcStr ("# c" ++ nl ++ scenario1)) = Raise e'
      /\ same_exn
           (Exception
              "Bad YAML, got a type item while working on a dict on line 1:    1")
           e')
  /\ (exists e,
         parseYAML 4 no_files (SrcStr scenario1) = Raise e
         /\ same_exn e
              (Exception
                 "Bad YAML, got a type item while working on a dict on line 2:    1")).
Proof.
  destruct (ignored_lines_keep_errors no_files
              (SrcStr scenario1) (SrcStr ("# c" ++ nl ++ scenario1)) 4)
    as [Hforth Hback].
  - change (with_ignored (splitlines scenario1)
              (("# c" ++ nl) :: splitlines scenario1)).
    apply wi_more; [vm_compute; reflexivity|].
    vm_compute. repeat apply wi_same. apply wi_nil.
  - split.
    + apply Hforth. vm_compute. reflexivity.
    + apply Hback. vm_compute. reflexivity.
Defined.

(** ** Scalars at the top level *)

Lemma number_from_app (n : nat) (a b : list string) :
  number_from n (a ++ b) =
  (number_from n a ++ number_from (n + length a) b)%list.
Proof.
  revert n. induction a as [|x a IH]; intros n; cbn [app number_from length].
  - now rewrite Nat.add_0_r.
  - rewrite IH. do 3 f_equal. lia.
Qed.

Lemma content_run_number_from (indent n : nat) (lines payloads : list string) :
  map (content_payload indent) lines = map Some payloads ->
  content_run indent (number_from n lines) payloads.
Proof.
  intros H. unfold content_run.
  rewrite <- (map_map snd (content_payload indent)), map_snd_number_from.
  exact H.
Qed.

(** With blank and comment lines alone left, the call returns what it
    holds. *)
Lemma ignored_to_end (trail : list string) (k fuel : nat) (g : generator)
      (indent : nat) (r : node) :
  queue g = [] -> upcoming g = number_from k trail ->
  forallb ignored trail = true ->
  exists g',
    parseYAML_loop (length trail + S fuel) g indent r = Return r g'.
Proof.
  intros Hq Hu Hi.
  destruct (loop_skips_ignored (number_from k trail) (S fuel) g indent r [])
    as (E & Hq' & Hu').
  - exact Hq.
  - now rewrite app_nil_r.
  - now rewrite forallb_number_from.
  - rewrite length_number_from in *. rewrite E.
    rewrite loop_returns_at_end by assumption. eauto.
Qed.

(** A scalar that holds text takes the content lines that are left,
    and the call returns it when only blank and comment lines follow. *)
Lemma scalar_to_end (lines payloads trail : list string) (k fuel : nat)
      (g : generator) (text : string) (ln : option nat) :
  queue g = [] ->
  upcoming g =
    (number_from k lines ++ number_from (k + length lines) trail)%list ->
  map (content_payload 0) lines = map Some payloads ->
  forallb ignored trail = true ->
  nonempty text = true ->
  exists g',
    parseYAML_loop (length lines + (length trail + S fuel)) g 0
                   (YamlValue text ln)
    = Return (YamlValue (text ++ more_text payloads) ln) g'.
Proof.
  intros Hq Hu Hrun Hi Hne.
  destruct (scalar_takes_run 0 (number_from k lines) payloads
              (length trail + S fuel) g text ln
              (number_from (k + length lines) trail))
    as (E & Hq' & Hu'); auto.
  { now apply content_run_number_from. }
  rewrite length_number_from in *. rewrite E.
  now apply (ignored_to_end trail (k + length lines)).
Qed.

(** The lines of a whole input, as the line source starts with them. *)
Lemma gen_init_lines (lines : list string) :
  queue (gen_init lines) = [] /\
  upcoming (gen_init lines) = number_from 0 lines.
Proof. split; reflexivity. Qed.

(** C4, amended.  At the top level, a document that is a run of one or
    more content lines, with blank or comment lines at most before and
    after it, and whose first payload is not an introducer, gives the
    scalar whose text is the payloads joined with a line feed, in
    order, and whose line number is that of the first line of the
    run. *)
Theorem top_level_scalar_concatenation (fs : filesystem) (source : py_source)
        (lead : list string) (l1 p1 : string)
        (lines payloads trail : list string) (fuel : nat) :
  source_lines fs source = (lead ++ (l1 :: lines) ++ trail)%list ->
  forallb ignored lead = true -> forallb ignored trail = true ->
  map (content_payload 0) (l1 :: lines) = map Some (p1 :: payloads) ->
  is_multiline_marker p1 = false ->
  result_of (parseYAML (S (length (source_lines fs source)) + fuel) fs source)
  = Some (inl (YamlValue (join nl (p1 :: payloads))
                         (Some (S (length lead))))).
Proof.
  intros Hs Hlead Htrail Hrun Hm.
  unfold parseYAML, parseYAML_inner, parseYAML_generator.
  rewrite Hs. clear Hs.
  cbn [map] in Hrun. injection Hrun as Hp1 Hrun.
  assert (Hne : nonempty p1 = true).
  { apply content_payload_inv in Hp1.
    destruct Hp1 as (_ & p & _ & _ & _ & _ & <- & H). exact H. }
  destruct (gen_init_lines (lead ++ (l1 :: lines) ++ trail)) as [Hq Hu].
  rewrite number_from_app in Hu. cbn [app number_from Nat.add] in Hu.
  rewrite number_from_app in Hu.
  rewrite !length_app. cbn [length].
  match goal with
  | |- context [parseYAML_loop ?f _ _ _] =>
      replace f
        with (length lead + S (length lines + (length trail + S fuel)))
        by (cbn [length]; lia)
  end.
  destruct (loop_skips_ignored (number_from 0 lead)
              (S (length lines + (length trail + S fuel)))
              (gen_init (lead ++ (l1 :: lines) ++ trail)) 0 PNone _ Hq Hu)
    as (E & Hq1 & Hu1).
  { now rewrite forallb_number_from. }
  rewrite length_number_from in *. rewrite E. clear E.
  set (g1 := snd (drain (length lead) _)) in *.
  destruct (gen_next_draws g1 _ _ Hq1 Hu1) as (g2 & Hn & Hq2 & Hu2).
  cbn [parseYAML_loop]. unfold loop_step. rewrite Hn.
  rewrite (loop_body_first_content _ _ _ _ p1 Hp1), Hm.
  destruct (scalar_to_end lines payloads trail (S (length lead)) fuel g2 p1
              (Some (length lead + 1)) Hq2 Hu2 Hrun Htrail Hne) as [g' E].
  rewrite E, join_more_text. cbn [result_of].
  do 4 f_equal. lia.
Qed.

(** A comment, two lines of text, the second one indented, and a blank
    line. *)
Lemma top_level_scalar_concatenation_witness :
  result_of
    (parseYAML 5 no_files
       (SrcStr ("# c" ++ nl ++ "abc" ++ nl ++ "  def" ++ nl ++ nl)))
  = Some (inl (YamlValue (join nl ["abc"; "def"]) (Some 2))).
Proof.
  apply (top_level_scalar_concatenation no_files
           (SrcStr ("# c" ++ nl ++ "abc" ++ nl ++ "  def" ++ nl ++ nl))
           ["# c" ++ nl] ("abc" ++ nl) "abc" ["  def" ++ nl] ["def"] [nl] 0).
  - vm_compute. reflexivity.
  - vm_compute. reflexivity.
  - vm_compute. reflexivity.
  - vm_compute. reflexivity.
  - vm_compute. reflexivity.
Defined.

(** X16.  At the top level, a document whose first content line is an
    introducer, [|], [|-] or [>], gives a scalar to which that line
    adds no text: the text is the payloads of the content lines that
    follow, joined with a line feed, and the line number is that of the
    first of them, or that of the introducer when none follows. *)
Theorem top_level_introducer (fs : filesystem) (source : py_source)
        (lead : list string) (l0 m : string)
        (lines payloads trail : list string) (fuel : nat) :
  source_lines fs source = (lead ++ (l0 :: lines) ++ trail)%list ->
  forallb ignored lead = true -> forallb ignored trail = true ->
  content_payload 0 l0 = Some m ->
  m = "|" \/ m = "|-" \/ m = ">" ->
  map (content_payload 0) lines = map Some payloads ->
  result_of (parseYAML (S (length (source_lines fs source)) + fuel) fs source)
  = Some (inl (YamlValue (join nl payloads)
                         (Some (match lines with
                                | [] => S (length lead)
                                | _ :: _ => S (S (length lead))
                                end)))).
Proof.
  intros Hs Hlead Htrail Hp0 Hm Hrun.
  assert (Hmk : is_multiline_marker m = true)
    by (destruct Hm as [->|[->| ->]]; reflexivity).
  unfold parseYAML, parseYAML_inner, parseYAML_generator.
  rewrite Hs. clear Hs.
  destruct (gen_init_lines (lead ++ (l0 :: lines) ++ trail)) as [Hq Hu].
  rewrite number_from_app in Hu. cbn [app number_from Nat.add] in Hu.
  rewrite number_from_app in Hu.
  rewrite !length_app.
  match goal with
  | |- context [parseYAML_loop ?f _ _ _] =>
      replace f
        with (length lead + S (length lines + (length trail + S fuel)))
        by (cbn [length]; lia)
  end.
  destruct (loop_skips_ignored (number_from 0 lead)
              (S (length lines + (length trail + S fuel)))
              (gen_init (lead ++ (l0 :: lines) ++ trail)) 0 PNone _ Hq Hu)
    as (E & Hq1 & Hu1).
  { now rewrite forallb_number_from. }
  rewrite length_number_from in *. rewrite E. clear E.
  set (g1 := snd (drain (length lead) _)) in *.
  destruct (gen_next_draws g1 _ _ Hq1 Hu1) as (g2 & Hn & Hq2 & Hu2).
  cbn [parseYAML_loop]. unfold loop_step. rewrite Hn.
  rewrite (loop_body_first_content _ _ _ _ m Hp0), Hmk.
  destruct lines as [|l1 lines].
  - destruct payloads; [|discriminate].
    cbn [number_from app length Nat.add] in *.
    destruct (ignored_to_end trail _ fuel g2 0
                (YamlValue EmptyString (Some (length lead + 1))) Hq2 Hu2 Htrail)
      as [g' E].
    rewrite E. cbn [result_of join]. do 4 f_equal. lia.
  - destruct payloads as [|p1 payloads]; [discriminate|].
    cbn [map] in Hrun. injection Hrun as Hp1 Hrun.
    assert (Hne : nonempty p1 = true).
    { apply content_payload_inv in Hp1.
      destruct Hp1 as (_ & p & _ & _ & _ & _ & <- & H). exact H. }
    cbn [number_from app length] in Hu2.
    destruct (gen_next_draws g2 _ _ Hq2 Hu2) as (g3 & Hn3 & Hq3 & Hu3).
    cbn [length Nat.add parseYAML_loop]. unfold loop_step. rewrite Hn3.
    rewrite (loop_body_content _ _ _ _ _ _ p1 Hp1). cbn [nonempty].
    replace (S (length lead) + S (length lines))
      with (S (S (length lead)) + length lines) in Hu3 by lia.
    destruct (scalar_to_end lines payloads trail (S (S (length lead))) fuel g3
                p1 (Some (S (length lead) + 1)) Hq3 Hu3 Hrun Htrail Hne)
      as [g' E].
    rewrite E, join_more_text. cbn [result_of]. do 4 f_equal. lia.
Qed.

(** The introducer [|-], indented, then two lines of text. *)
Lemma top_level_introducer_witness :
  result_of
    (parseYAML 4 no_files
       (SrcStr ("  |-" ++ nl ++ "line1" ++ nl ++ "line2" ++ nl)))
  = Some (inl (YamlValue (join nl ["line1"; "line2"]) (Some 2))).
Proof.
  apply (top_level_introducer no_files
           (SrcStr ("  |-" ++ nl ++ "line1" ++ nl ++ "line2" ++ nl))
           [] ("  |-" ++ nl) "|-" ["line1" ++ nl; "line2" ++ nl]
           ["line1"; "line2"] [] 0).
  - vm_compute. reflexivity.
  - reflexivity.
  - reflexivity.
  - vm_compute. reflexivity.
  - right. left. reflexivity.
  - vm_compute. reflexivity.
Defined.
